(** * Student repository: a shallow embedding of
      [Student_Repository_Malav_Shah_11.py] and its verified properties.

    The Python program loads four tab separated files (majors, students,
    instructors, grades) into dictionaries of objects and prints summary
    tables.  The embedding follows the program class by class:

    - Python [dict]s are insertion ordered association lists ([Dict]);
    - Python [set]s of course names are [gset string]; the order in which a
      set is iterated is not fixed by the language and is a parameter of the
      model ([SetOrder]);
    - mutation of [self], [print] and exceptions live in the monad [M];
    - a generator is the finite sequence of its yields, possibly ended by an
      exception ([gen]);
    - a Python [float] is the rational number it denotes, every operation
      rounding to the nearest binary64 number ([PyFloat]);
    - the world outside the program is a parameter: the file system maps a
      path to the rows that [csv.reader] gives for the file, paths are
      joined the POSIX way, and the relational store answers the one query
      of the program ([Database]);
    - a [Student] refers to its [Major] by the key under which the majors
      dictionary holds that object; [Heap] spells out objects and
      references for [Major.remaining] alone;
    - the earlier version of the program, [Student_Repository_Malav_Shah.py],
      is the module [HW09]. *)

From stdpp Require Import gmap strings list sorting pretty.
From Stdlib Require Import Ascii QArith Qpower Qround Qabs Lqa.
Close Scope Q_scope.
Set Warnings "-clear-no-such-hyp".
Local Open Scope string_scope.
Local Open Scope list_scope.

(** ** Exceptions, output and the effect monad *)

(** The exception classes the program raises or meets.  [str_exn] is what
    [print(e)] shows. *)
Inductive exn : Type :=
  | FileNotFoundError (msg : string)
  | ValueError (msg : string)
  | KeyError (key : string)
  | ZeroDivisionError (msg : string)
  | AttributeError (msg : string)
  | UnboundLocalError (msg : string)
  | OperationalError (msg : string).

Definition str_exn (e : exn) : string :=
  match e with
  | FileNotFoundError msg | ValueError msg | ZeroDivisionError msg
  | AttributeError msg | UnboundLocalError msg | OperationalError msg => msg
  | KeyError key => "'" +:+ key +:+ "'"
  end.

(** A cell of a printed row, and what reaches standard output: a printed
    line or a rendered table (the renderer itself is an external library). *)
Inductive cell : Type :=
  | CStr (s : string)
  | CList (l : list string)
  | CFloat (x : Q)
  | CInt (n : nat)
  | CNone.

Inductive event : Type :=
  | Print (line : string)
  | PrintTable (field_names : list string) (rows : list (list cell)).

Inductive outcome (A : Type) : Type :=
  | Return (a : A)
  | Raise (e : exn).
Arguments Return {A} a.
Arguments Raise {A} e.

(** A computation over a mutable object of type [S]: it ends normally or by
    an exception, and in both cases leaves the object as mutated so far and
    the lines printed so far. *)
Definition M (S A : Type) : Type := S → outcome A * S * list event.

Definition ret {S A} (a : A) : M S A := λ s, (Return a, s, []).

Definition bind {S A B} (m : M S A) (f : A → M S B) : M S B := λ s,
  match m s with
  | (Return a, s', out) =>
      let '(r, s'', out') := f a s' in (r, s'', out ++ out')
  | (Raise e, s', out) => (Raise e, s', out)
  end.

Definition raise {S A} (e : exn) : M S A := λ s, (Raise e, s, []).
Definition print {S} (line : string) : M S unit := λ s, (Return tt, s, [Print line]).
Definition print_table {S} (field_names : list string) (rows : list (list cell)) : M S unit :=
  λ s, (Return tt, s, [PrintTable field_names rows]).
Definition get_self {S} : M S S := λ s, (Return s, s, []).
Definition modify_self {S} (f : S → S) : M S unit := λ s, (Return tt, f s, []).

Declare Scope py_scope.
Delimit Scope py_scope with py.
Notation "x ← y ; z" := (bind y (λ x, z))
  (at level 20, y at level 100, z at level 200, only parsing) : py_scope.
Notation "y ;; z" := (bind y (λ _, z))
  (at level 100, z at level 200, only parsing, right associativity) : py_scope.
Local Open Scope py_scope.

(** [try: body / except classes as e: handler e / else: orelse].  The handler
    runs only for an exception of [body] that [classes] accepts; an exception
    of [orelse] is not handled. *)
Definition try_except_else {S} (body : M S unit) (classes : exn → bool)
    (handler : exn → M S unit) (orelse : M S unit) : M S unit := λ s,
  match body s with
  | (Return _, s', out) =>
      let '(r, s'', out') := orelse s' in (r, s'', out ++ out')
  | (Raise e, s', out) =>
      if classes e then
        let '(r, s'', out') := handler e s' in (r, s'', out ++ out')
      else (Raise e, s', out)
  end.

(** [try: body / except classes as e: handler e]. *)
Definition try_except {S A} (body : M S A) (classes : exn → bool)
    (handler : exn → M S A) : M S A := λ s,
  match body s with
  | (Return a, s', out) => (Return a, s', out)
  | (Raise e, s', out) =>
      if classes e then
        let '(r, s'', out') := handler e s' in (r, s'', out ++ out')
      else (Raise e, s', out)
  end.

(** ** Generators *)

(** What a generator produces when it is consumed to its end. *)
Inductive gen (A : Type) : Type :=
  | Stop
  | Yield (a : A) (rest : gen A)
  | Throw (e : exn).
Arguments Stop {A}.
Arguments Yield {A} a rest.
Arguments Throw {A} e.

(** [for x in g: body x].  The body runs on a yielded value before the
    generator is resumed; an exception of the body abandons the generator. *)
Fixpoint for_gen {S A} (g : gen A) (body : A → M S unit) : M S unit :=
  match g with
  | Stop => ret tt
  | Yield a rest => bind (body a) (λ _, for_gen rest body)
  | Throw e => raise e
  end.

Fixpoint yielded {A} (g : gen A) : list A :=
  match g with
  | Stop | Throw _ => []
  | Yield a rest => a :: yielded rest
  end.

Fixpoint thrown {A} (g : gen A) : option exn :=
  match g with
  | Stop => None
  | Yield _ rest => thrown rest
  | Throw e => Some e
  end.

(** ** Dictionaries *)

(** A Python [dict] with string keys: insertion ordered, assignment to a
    present key keeps its place. *)
Module Dict.
Definition t (V : Type) : Type := list (string * V).

Definition empty {V} : t V := [].

Fixpoint get {V} (d : t V) (k : string) : option V :=
  match d with
  | [] => None
  | (k', v) :: d' => if decide (k' = k) then Some v else get d' k
  end.

Definition mem {V} (k : string) (d : t V) : bool := bool_decide (is_Some (get d k)).

Fixpoint set {V} (d : t V) (k : string) (v : V) : t V :=
  match d with
  | [] => [(k, v)]
  | (k', v') :: d' =>
      if decide (k' = k) then (k', v) :: d' else (k', v') :: set d' k v
  end.

Definition keys {V} (d : t V) : list string := d.*1.
Definition values {V} (d : t V) : list V := d.*2.
Definition items {V} (d : t V) : list (string * V) := d.
End Dict.

(** ** The record reader *)

(** A file, as [csv.reader] presents it: for a delimiter, the rows of
    fields.  The CSV dialect itself is the library's. *)
Definition file : Type := string → list (list string).
Definition FileSystem : Type := gmap string file.

Definition csv_reader (f : file) (delimiter : string) : list (list string) := f delimiter.

Definition field_count_message (path : string) (len line_num fields : nat) : string :=
  path +:+ " - path has length of line: " +:+ pretty len
       +:+ " fields on line no: " +:+ pretty line_num
       +:+ " expected " +:+ pretty fields.

(** The loop of [file_reader] over the rows, with its two loop variables
    [line_num] and [header]. *)
Fixpoint read_rows (path : string) (fields : nat) (reader : list (list string))
    (line_num : nat) (header : bool) : gen (list string) :=
  match reader with
  | [] => Stop
  | line :: reader' =>
      let line_num := S line_num in
      if decide (length line ≠ fields) then
        Throw (ValueError (field_count_message path (length line) line_num fields))
      else if negb header then
        Yield line (read_rows path fields reader' line_num header)
      else
        read_rows path fields reader' line_num false
  end.

Definition file_reader (fs : FileSystem) (path : string) (fields : nat)
    (sep : string) (header : bool) : gen (list string) :=
  match fs !! path with
  | None => Throw (FileNotFoundError "File is not present on the provided path")
  | Some file_path => read_rows path fields (csv_reader file_path sep) 0 header
  end.

(** A row with the number of fields the caller expects. *)
Definition well_formed (fields : nat) (line : list string) : Prop :=
  length line = fields.

(** ** Python floats *)

(** A finite [float] is modelled by the rational it denotes; an operation
    computes exactly and rounds to the nearest binary64 number, ties to the
    even significand.  Overflow is out of range for this program and not
    modelled. *)
Module PyFloat.
Definition prec : Z := 53.
Definition emin : Z := -1074.

(** Nearest integer, ties to even. *)
Definition rne (q : Q) : Z :=
  let f := Qfloor q in
  match Qcompare (q - inject_Z f) (1 # 2) with
  | Lt => f
  | Gt => (f + 1)%Z
  | Eq => if Z.even f then f else (f + 1)%Z
  end.

Definition pow2 (e : Z) : Q := Qpower 2 e.

(** The integer part of the binary logarithm of [|q|], for [q] not zero. *)
Definition ilog2 (q : Q) : Z :=
  let a := Qabs q in
  if Qle_bool 1 a then Z.log2 (Qfloor a) else (- Z.log2_up (Qceiling (/ a)))%Z.

(** The exponent of the last place of the binary64 numbers next to [q]. *)
Definition ulp_exp (q : Q) : Z := Z.max (ilog2 q - (prec - 1)) emin.

(** Rounding to binary64. *)
Definition fl (x : Q) : Q :=
  let q := Qred x in
  if Qeq_bool q 0 then 0%Q
  else let e := ulp_exp q in
       Qred (inject_Z (rne (q / pow2 e)) * pow2 e).

Definition of_int (n : Z) : Q := fl (inject_Z n).
Definition add (x y : Q) : Q := fl (x + y).
Definition div (x y : Q) : Q := fl (x / y).

(** [sum(l)] of a list of floats, from the left.  (The sums of this program
    are exact, so the summation scheme of the interpreter does not show.) *)
Definition sum (l : list Q) : Q := fold_left add l 0%Q.

(** [round(x, ndigits)]: the decimal with [ndigits] places nearest to the
    exact value of [x], ties to even, then the float nearest to it. *)
Definition round (x : Q) (ndigits : nat) : Q :=
  let p := inject_Z (10 ^ Z.of_nat ndigits) in
  fl (inject_Z (rne (x * p)) / p).
End PyFloat.

(** ** Sets of course names and [sorted] *)

(** The order in which Python iterates a set is not specified; the model
    takes it as a parameter that enumerates each set once. *)
Class SetOrder : Type := {
  set_to_list : gset string → list string;
  set_to_list_perm : ∀ X, set_to_list X ≡ₚ elements X
}.

(** What [list(...)] is applied to in the program: a set or a list. *)
Inductive iterable : Type :=
  | ISet (X : gset string)
  | IList (l : list string).

Definition list_of `{SetOrder} (x : iterable) : list string :=
  match x with
  | ISet X => set_to_list X
  | IList l => l
  end.

(** The order of Python strings, by code point. *)
Definition str_le (a b : string) : Prop := String.leb a b = true.

#[global] Instance str_le_dec : RelDecision str_le :=
  λ a b, decide (String.leb a b = true).

#[global] Instance str_le_total : Total str_le :=
  λ a b, String.leb_total a b.

Definition sorted (l : list string) : list string := merge_sort str_le l.

(** [d[k]], raising [KeyError]. *)
Definition getitem {S V} (d : Dict.t V) (k : string) : M S V :=
  match Dict.get d k with
  | Some v => ret v
  | None => raise (KeyError k)
  end.

(** A list comprehension [[f x for x in l]] whose element expression may
    raise. *)
Fixpoint comprehension {S A B} (f : A → M S B) (l : list A) : M S (list B) :=
  match l with
  | [] => ret []
  | x :: l' => y ← f x; ys ← comprehension f l'; ret (y :: ys)
  end.

(** The method [m] run on the object that [getter] finds inside [self];
    the object as mutated is put back, also when [m] raises. *)
Definition on_object {S T A} (getter : S → option T) (setter : S → T → S)
    (missing : exn) (m : M T A) : M S A := λ self,
  match getter self with
  | None => (Raise missing, self, [])
  | Some obj => let '(r, obj', out) := m obj in (r, setter self obj', out)
  end.

(** ** class Major *)
Module Major.
Record t : Type := {
  _major : string;
  _required : gset string;
  _electives : gset string
}.

Definition FIELD_NAMES : list string := ["Major"; "Required Courses"; "Electives"].
Definition GRADES : gset string := {[ "A"; "A-"; "B+"; "B"; "B-"; "C+"; "C" ]}.

Definition __init__ (major : string) : t :=
  {| _major := major; _required := ∅; _electives := ∅ |}.

Definition add_course (course opt : string) : M t unit :=
  if decide (opt = "R") then
    modify_self (λ self, {| _major := _major self;
                            _required := {[course]} ∪ _required self;
                            _electives := _electives self |})
  else if decide (opt = "E") then
    modify_self (λ self, {| _major := _major self;
                            _required := _required self;
                            _electives := {[course]} ∪ _electives self |})
  else raise (ValueError "Course Flag not Valid").

Definition remaining `{SetOrder} (self : t) (completed : Dict.t string)
    : string * list string * list string * list string :=
  let passed : gset string :=
    list_to_set ((filter (λ cg, cg.2 ∈ GRADES) (Dict.items completed)).*1) in
  let remaining : gset string := _required self ∖ passed in
  let electives : iterable := ISet (_electives self) in
  let electives :=
    if decide (_electives self ∩ passed ≠ ∅) then IList [] else electives in
  (_major self, list_of (ISet passed), list_of (ISet remaining), list_of electives).

Definition info `{SetOrder} (self : t) : list cell :=
  [CStr (_major self);
   CList (sorted (set_to_list (_required self)));
   CList (sorted (set_to_list (_electives self)))].
End Major.

(** ** class Student *)
Module Student.
(** [_major] is a reference to a [Major] object shared with the
    repository; the object is identified by its key in the majors
    dictionary, where it lives. *)
Record t : Type := {
  _cwid : string;
  _name : string;
  _major : string;
  _courses : Dict.t string
}.

Definition FIELD_NAMES : list string :=
  ["CWID"; "Name"; "Major"; "Completed Courses"; "Remaining Required";
   "Remaining Electives"; "GPA"].

Definition __init__ (cwid name major : string) : t :=
  {| _cwid := cwid; _name := name; _major := major; _courses := Dict.empty |}.

Definition add_course (course grade : string) : M t unit :=
  modify_self (λ self, {| _cwid := _cwid self; _name := _name self;
                          _major := _major self;
                          _courses := Dict.set (_courses self) course grade |}).

Definition grades : Dict.t Q :=
  [("A", 4 # 1); ("A-", 15 # 4); ("B+", 13 # 4); ("B", 3 # 1); ("B-", 11 # 4);
   ("C+", 9 # 4); ("C", 2 # 1); ("C-", 0 # 1); ("D+", 0 # 1); ("D", 0 # 1);
   ("D-", 0 # 1); ("F", 0 # 1)]%Q.

(** [x / n] for a float (or the integer 0 of an empty sum) and a length. *)
Definition truediv {S} (x : Q) (n : nat) : M S Q :=
  if decide (n = 0%nat) then raise (ZeroDivisionError "division by zero")
  else ret (PyFloat.div x (PyFloat.of_int (Z.of_nat n))).

Definition is_ZeroDivisionError (e : exn) : bool :=
  match e with ZeroDivisionError _ => true | _ => false end.

Definition gpa {S} (self : t) : M S (option Q) :=
  try_except
    (points ← comprehension (getitem grades) (Dict.values (_courses self));
     total ← truediv (PyFloat.sum points) (length (Dict.values (_courses self)));
     ret (Some (PyFloat.round total 2)))
    is_ZeroDivisionError
    (λ e, print (str_exn e);; ret None).

Definition float_cell (x : option Q) : cell :=
  match x with Some q => CFloat q | None => CNone end.

(** [majors] is the store in which the reference [_major] is looked up; a
    reference without object, which the loading never produces, would be an
    attribute error. *)
Definition info `{SetOrder} {S} (majors : Dict.t Major.t) (self : t) : M S (list cell) :=
  match Dict.get majors (_major self) with
  | None => raise (AttributeError "remaining")
  | Some major_object =>
      let '(major, passed, remaining, electives) :=
        Major.remaining major_object (_courses self) in
      g ← gpa self;
      ret [CStr (_cwid self); CStr (_name self); CStr major;
           CList (sorted passed); CList (sorted remaining);
           CList (sorted electives); float_cell g]
  end.
End Student.

(** ** class Instructor *)
Module Instructor.
Record t : Type := {
  _cwid : string;
  _name : string;
  _dept : string;
  _courses : Dict.t nat
}.

Definition FIELD_NAMES : list string := ["CWID"; "Name"; "Dept"; "Course"; "Students"].

Definition __init__ (cwid name dept : string) : t :=
  {| _cwid := cwid; _name := name; _dept := dept; _courses := Dict.empty |}.

(** [self._courses[course] += 1] on a [defaultdict(int)]. *)
Definition add_student (course : string) : M t unit :=
  modify_self (λ self,
    {| _cwid := _cwid self; _name := _name self; _dept := _dept self;
       _courses := Dict.set (_courses self) course
                     (default 0%nat (Dict.get (_courses self) course) + 1)%nat |}).

Definition info (self : t) : list (list cell) :=
  map (λ cc : string * nat,
         [CStr (_cwid self); CStr (_name self); CStr (_dept self);
          CStr cc.1; CInt cc.2])
      (Dict.items (_courses self)).
End Instructor.

(** ** class Repository *)

Definition tab : string := String "009"%char "".
Definition nl : string := String "010"%char "".

Fixpoint endswith_sep (s : string) : bool :=
  match s with
  | "" => false
  | String c "" => bool_decide (c = "/"%char)
  | String _ s' => endswith_sep s'
  end.

(** [os.path.join(a, p)] for two components, POSIX flavour. *)
Definition path_join (a p : string) : string :=
  match p with
  | String "/"%char _ => p
  | _ => if bool_decide (a = "") || endswith_sep a then a +:+ p
         else a +:+ "/" +:+ p
  end.

(** The exception of a tuple assignment whose right side has the wrong
    number of values. *)
Definition unpack_error (expected got : nat) : exn :=
  if decide (got < expected)%nat then
    ValueError ("not enough values to unpack (expected " +:+ pretty expected
                +:+ ", got " +:+ pretty got +:+ ")")
  else ValueError ("too many values to unpack (expected " +:+ pretty expected +:+ ")").

(** The external relational store: connecting to a database path raises or
    gives a connection, and running the grade summary query on the
    connection raises or gives its rows. *)
Definition Connection : Type := outcome (list (list cell)).
Definition Database : Type := string → outcome Connection.

Module Repository.
Record t : Type := {
  _path : string;
  _students : Dict.t Student.t;
  _instructors : Dict.t Instructor.t;
  _majors : Dict.t Major.t
}.

Definition set_students (f : Dict.t Student.t → Dict.t Student.t) (self : t) : t :=
  {| _path := _path self; _students := f (_students self);
     _instructors := _instructors self; _majors := _majors self |}.
Definition set_instructors (f : Dict.t Instructor.t → Dict.t Instructor.t) (self : t) : t :=
  {| _path := _path self; _students := _students self;
     _instructors := f (_instructors self); _majors := _majors self |}.
Definition set_majors (f : Dict.t Major.t → Dict.t Major.t) (self : t) : t :=
  {| _path := _path self; _students := _students self;
     _instructors := _instructors self; _majors := f (_majors self) |}.

(** The object as the first four assignments of the constructor leave it. *)
Definition fresh (path : string) : t :=
  {| _path := path; _students := Dict.empty;
     _instructors := Dict.empty; _majors := Dict.empty |}.

(** [self._majors[key].method(...)] and its two siblings. *)
Definition on_major {A} (key : string) (m : M Major.t A) : M t A :=
  on_object (λ self, Dict.get (_majors self) key)
            (λ self obj, set_majors (λ d, Dict.set d key obj) self)
            (KeyError key) m.
Definition on_student {A} (key : string) (m : M Student.t A) : M t A :=
  on_object (λ self, Dict.get (_students self) key)
            (λ self obj, set_students (λ d, Dict.set d key obj) self)
            (KeyError key) m.
Definition on_instructor {A} (key : string) (m : M Instructor.t A) : M t A :=
  on_object (λ self, Dict.get (_instructors self) key)
            (λ self obj, set_instructors (λ d, Dict.set d key obj) self)
            (KeyError key) m.

(** The bodies of the four loading loops, on one record. *)
Definition majors_record (record : list string) : M t unit :=
  match record with
  | [major; flag; course] =>
      self ← get_self;
      (if negb (Dict.mem major (_majors self)) then
         modify_self (set_majors (λ d, Dict.set d major (Major.__init__ major)))
       else ret tt);;
      on_major major (Major.add_course course flag)
  | _ => raise (unpack_error 3 (length record))
  end.

Definition students_record (record : list string) : M t unit :=
  match record with
  | [cwid; name; major] =>
      self ← get_self;
      if negb (Dict.mem major (_majors self)) then
        print ("Student " +:+ cwid +:+ " '" +:+ name
               +:+ "' has unknown major '" +:+ major +:+ "'")
      else
        modify_self (set_students (λ d,
          Dict.set d cwid (Student.__init__ cwid name major)))
  | _ => raise (unpack_error 3 (length record))
  end.

Definition instructors_record (record : list string) : M t unit :=
  match record with
  | [cwid; name; dept] =>
      modify_self (set_instructors (λ d,
        Dict.set d cwid (Instructor.__init__ cwid name dept)))
  | _ => raise (unpack_error 3 (length record))
  end.

Definition grades_record (record : list string) : M t unit :=
  match record with
  | [std_cwid; course; grade; instructor_cwid] =>
      self ← get_self;
      (if Dict.mem std_cwid (_students self) then
         on_student std_cwid (Student.add_course course grade)
       else print ("Grades for student is " +:+ std_cwid));;
      self ← get_self;
      if Dict.mem instructor_cwid (_instructors self) then
        on_instructor instructor_cwid (Instructor.add_student course)
      else print ("Grades for instructor is " +:+ instructor_cwid)
  | _ => raise (unpack_error 4 (length record))
  end.

Definition _get_majors (fs : FileSystem) (path : string) : M t unit :=
  for_gen (file_reader fs path 3 tab true) majors_record.

Definition _get_students (fs : FileSystem) (path : string) : M t unit :=
  for_gen (file_reader fs path 3 tab true) students_record.

Definition _get_instructors (fs : FileSystem) (path : string) : M t unit :=
  for_gen (file_reader fs path 3 tab true) instructors_record.

Definition _get_grades (fs : FileSystem) (path : string) : M t unit :=
  for_gen (file_reader fs path 4 tab true) grades_record.

Definition majors_table `{SetOrder} : M t unit :=
  self ← get_self;
  print_table Major.FIELD_NAMES (map Major.info (Dict.values (_majors self))).

Definition student_table `{SetOrder} : M t unit :=
  self ← get_self;
  rows ← comprehension (Student.info (_majors self)) (Dict.values (_students self));
  print_table Student.FIELD_NAMES rows.

Definition instructor_table : M t unit :=
  self ← get_self;
  print_table Instructor.FIELD_NAMES
    (concat (map Instructor.info (Dict.values (_instructors self)))).

Definition default_db_path : string := "HW11_Test\810_startup.db".

(** The handler of [__init__] and of [instructor_table_db]:
    [except (FileNotFoundError, ValueError)]. *)
Definition is_load_error (e : exn) : bool :=
  match e with
  | FileNotFoundError _ | ValueError _ => true
  | _ => false
  end.

(** When the connection fails with a handled exception the variable [db]
    stays unbound, and the query that follows cannot read it. *)
Definition instructor_table_db (db : Database) (db_path : string) : M t unit :=
  connection ← try_except
    (match db db_path with
     | Return connection => ret (Some connection)
     | Raise e => raise e
     end)
    is_load_error
    (λ e, print (str_exn e);; ret None);
  match connection with
  | None =>
      raise (UnboundLocalError
        "cannot access local variable 'db' where it is not associated with a value")
  | Some (Raise e) => raise e
  | Some (Return rows) =>
      print_table ["Name"; "CWID"; "Course"; "Grade"; "Instructor"] rows
  end.

(** The four load phases, the body of the [try]. *)
Definition load (fs : FileSystem) (path : string) : M t unit :=
  _get_majors fs (path_join path "majors.txt");;
  _get_students fs (path_join path "students.txt");;
  _get_instructors fs (path_join path "instructors.txt");;
  _get_grades fs (path_join path "grades.txt").

(** The four reports, the [else] branch. *)
Definition reports `{SetOrder} (db : Database) (tables : bool) : M t unit :=
  if tables then
    print (nl +:+ "Majors Table");;
    majors_table;;
    print (nl +:+ "Student Table ");;
    student_table;;
    print (nl +:+ "Instructor Table ");;
    instructor_table;;
    print (nl +:+ "Student Grade Summary");;
    instructor_table_db db default_db_path
  else ret tt.

(** [Repository(path, tables)]: the outcome of the constructor, the
    object it leaves and what it printed. *)
Definition __init__ `{SetOrder} (fs : FileSystem) (db : Database)
    (path : string) (tables : bool) : outcome unit * t * list event :=
  try_except_else (load fs path) is_load_error
    (λ e, print (str_exn e))
    (reports db tables)
    (fresh path).
End Repository.

(** ** Major.remaining, object by object *)

(** The objects that [Major.remaining] reads and creates, on a heap whose
    addresses are positions: a [Major] holds the addresses of its name and
    of its two sets, and a run only ever appends new objects. *)
Module Heap.
Inductive object : Type :=
  | OStr (s : string)
  | OSet (X : gset string)
  | OList (l : list string)
  | ODict (d : Dict.t string)
  | OMajor (_major _required _electives : nat).

Abbreviation t := (list object).

(** A computation on the heap; [None] is an access that Python would
    refuse (a missing object, or one of another type). *)
Definition H (A : Type) : Type := t → option (A * t).

Definition hret {A} (a : A) : H A := λ h, Some (a, h).
Definition hbind {A B} (m : H A) (f : A → H B) : H B := λ h,
  match m h with
  | Some (a, h') => f a h'
  | None => None
  end.

Definition new (o : object) : H nat := λ h, Some (length h, h ++ [o]).

Definition read_major (r : nat) : H (nat * nat * nat) := λ h,
  match h !! r with
  | Some (OMajor major required electives) => Some ((major, required, electives), h)
  | _ => None
  end.
Definition read_dict (r : nat) : H (Dict.t string) := λ h,
  match h !! r with
  | Some (ODict d) => Some (d, h)
  | _ => None
  end.
Definition read_set (r : nat) : H (gset string) := λ h,
  match h !! r with
  | Some (OSet X) => Some (X, h)
  | _ => None
  end.

(** [list(x)]: a new list with the elements of the set or list at [r]. *)
Definition list_ `{SetOrder} (r : nat) : H nat := λ h,
  match h !! r with
  | Some (OSet X) => new (OList (set_to_list X)) h
  | Some (OList l) => new (OList l) h
  | _ => None
  end.

Declare Scope heap_scope.
Delimit Scope heap_scope with heap.
Notation "x ← y ; z" := (hbind y (λ x, z))
  (at level 20, y at level 100, z at level 200, only parsing) : heap_scope.

(** [Major.remaining] with [self] and [completed] given by address; the
    local variables hold addresses. *)
Definition remaining `{SetOrder} (self completed : nat) : H (nat * nat * nat * nat) :=
  (attributes ← read_major self;
   let '(major, required, electives_attribute) := attributes in
   d ← read_dict completed;
   passed ← new (OSet (list_to_set
                         ((filter (λ cg, cg.2 ∈ Major.GRADES) (Dict.items d)).*1)));
   R ← read_set required;
   P ← read_set passed;
   remaining ← new (OSet (R ∖ P));
   let electives := electives_attribute in
   E ← read_set electives_attribute;
   P ← read_set passed;
   common ← new (OSet (E ∩ P));
   C ← read_set common;
   electives ← (if decide (C ≠ ∅) then new (OList []) else hret electives);
   l1 ← list_ passed;
   l2 ← list_ remaining;
   l3 ← list_ electives;
   hret (major, l1, l2, l3))%heap.
End Heap.

(** ** Observations on a run *)

Definition outcome_of {S A} (r : outcome A * S * list event) : outcome A := r.1.1.
Definition state_of {S A} (r : outcome A * S * list event) : S := r.1.2.
Definition output_of {S A} (r : outcome A * S * list event) : list event := r.2.


(** What a computation keeps, raises and prints, from any state. *)
Definition preserves {S A} (P : S → Prop) (m : M S A) : Prop :=
  ∀ s, P s → P (state_of (m s)).
Definition raises_only {S A} (Q : exn → Prop) (m : M S A) : Prop :=
  ∀ s e, outcome_of (m s) = Raise e → Q e.
Definition keeps_state {S A} (m : M S A) : Prop :=
  ∀ s, state_of (m s) = s.

(** Every student of the store refers to a major of the store. *)
Definition references_resolve (self : Repository.t) : Prop :=
  ∀ cwid student,
    Dict.get (Repository._students self) cwid = Some student →
    is_Some (Dict.get (Repository._majors self) (Student._major student)).

(** The counter that an instructor's rows report for a course, 0 when the
    course has no row, and the sum of the counters in the rows. *)
Definition enrollment (instructor : Instructor.t) (course : string) : nat :=
  default 0%nat (Dict.get (Instructor._courses instructor) course).
Definition total_enrollment (instructor : Instructor.t) : nat :=
  sum_list (Dict.values (Instructor._courses instructor)).

(** A grade record whose first field, the student, is a key of the
    students dictionary. *)
Definition names_known_student (students : Dict.t Student.t) (record : list string) : bool :=
  match record !! 0%nat with
  | Some std_cwid => Dict.mem std_cwid students
  | None => false
  end.

(** No instructor of the store has a counter yet. *)
Definition no_enrollment (self : Repository.t) : Prop :=
  ∀ cwid instructor,
    Dict.get (Repository._instructors self) cwid = Some instructor →
    Instructor._courses instructor = [].

(** The counters of the instructors of [d'] are those of [d] plus the
    number of records of [records] that name them. *)
Definition counted (records : list (list string)) (d d' : Dict.t Instructor.t) : Prop :=
  ∀ cwid,
    match Dict.get d cwid, Dict.get d' cwid with
    | Some instructor, Some instructor' =>
        (∀ course,
           enrollment instructor' course
           = enrollment instructor course
             + length (filter (λ record, record !! 3%nat = Some cwid
                                         ∧ record !! 1%nat = Some course)
                         records))
        ∧ total_enrollment instructor'
          = total_enrollment instructor
            + length (filter (λ record, record !! 3%nat = Some cwid) records)
    | None, None => True
    | _, _ => False
    end.

(** What a grade record does to the two dictionaries it touches. *)
Definition grade_students (std_cwid course grade : string)
    (d : Dict.t Student.t) : Dict.t Student.t :=
  match Dict.get d std_cwid with
  | Some student =>
      Dict.set d std_cwid (state_of (Student.add_course course grade student))
  | None => d
  end.
Definition grade_instructors (instructor_cwid course : string)
    (d : Dict.t Instructor.t) : Dict.t Instructor.t :=
  match Dict.get d instructor_cwid with
  | Some instructor =>
      Dict.set d instructor_cwid (state_of (Instructor.add_student course instructor))
  | None => d
  end.
Definition grade_instructors_record (d : Dict.t Instructor.t)
    (record : list string) : Dict.t Instructor.t :=
  match record with
  | [_; course; _; instructor_cwid] => grade_instructors instructor_cwid course d
  | _ => d
  end.

(** The three phases before the grades, and the grade records that the
    constructor goes through: those the reader yields, when the phases
    before have completed. *)
Definition load_entities (fs : FileSystem) (path : string) : M Repository.t unit :=
  Repository._get_majors fs (path_join path "majors.txt");;
  Repository._get_students fs (path_join path "students.txt");;
  Repository._get_instructors fs (path_join path "instructors.txt").

Definition grades_processed (fs : FileSystem) (path : string) : list (list string) :=
  match outcome_of (load_entities fs path (Repository.fresh path)) with
  | Return _ => yielded (file_reader fs (path_join path "grades.txt") 4 tab true)
  | Raise _ => []
  end.

(** ** Grades and grade points *)

(** The first of the grade strings that the grade point table lacks. *)
Fixpoint first_unknown (grade_strings : list string) : option string :=
  match grade_strings with
  | [] => None
  | grade :: rest =>
      match Dict.get Student.grades grade with
      | Some _ => first_unknown rest
      | None => Some grade
      end
  end.

(** The points of grade strings that the table holds. *)
Fixpoint points_of (grade_strings : list string) : list Q :=
  match grade_strings with
  | [] => []
  | grade :: rest =>
      match Dict.get Student.grades grade with
      | Some q => q :: points_of rest
      | None => points_of rest
      end
  end.

(** The exact sum and mean of a list of rationals. *)
Definition Qsum (l : list Q) : Q := foldr Qplus 0%Q l.
Definition mean (l : list Q) : Q := (Qsum l / inject_Z (Z.of_nat (length l)))%Q.

(** A grade point: a quarter of an integer from 0 to 16. *)
Definition quarter (q : Q) : Prop :=
  ∃ a : Z, (0 ≤ a ≤ 16)%Z ∧ (q == inject_Z a * (1 # 4))%Q.

Definition is_unknown_grade (e : exn) : Prop :=
  ∃ grade, e = KeyError grade ∧ Dict.get Student.grades grade = None.

(** ** Sample data *)

(** A small university, used to run the model on concrete input. *)
Definition majors_txt : file := λ _,
  [["Major"; "Required/Elective"; "Course"];
   ["CS"; "R"; "CS101"];
   ["CS"; "E"; "CS200"]].
Definition students_txt : file := λ _,
  [["CWID"; "Name"; "Major"];
   ["1"; "Amy"; "CS"];
   ["2"; "Bob"; "EE"]].
Definition instructors_txt : file := λ _,
  [["CWID"; "Name"; "Department"];
   ["9"; "Kay"; "CS"]].
Definition grades_txt : file := λ _,
  [["Student CWID"; "Course"; "Grade"; "Instructor CWID"];
   ["1"; "CS101"; "B+"; "9"];
   ["7"; "CS101"; "A"; "9"]].


Definition sample_fs : FileSystem :=
  <["HW11/majors.txt" := majors_txt]>
  (<["HW11/students.txt" := students_txt]>
  (<["HW11/instructors.txt" := instructors_txt]>
  (<["HW11/grades.txt" := grades_txt]> ∅))).

Definition no_database : Database := λ _, Return (Return []).

(** Two ways to iterate a set: the order of its elements in the underlying
    map, and the descending order of the course names. *)
Definition descending (X : gset string) : list string := reverse (sorted (elements X)).

Definition elements_order : SetOrder :=
  {| set_to_list := elements; set_to_list_perm := λ X, reflexivity (elements X) |}.
Definition descending_order : SetOrder :=
  {| set_to_list := descending;
     set_to_list_perm := λ X,
       transitivity (reverse_Permutation (sorted (elements X)))
                    (merge_sort_Permutation str_le (elements X)) |}.

(** A major with two required courses and one elective, and a student of
    it with one grade. *)
Definition cs_major : Major.t :=
  {| Major._major := "CS"; Major._required := {["CS101"; "CS102"]};
     Major._electives := {["CS200"]} |}.
Definition amy : Student.t :=
  {| Student._cwid := "1"; Student._name := "Amy"; Student._major := "CS";
     Student._courses := [("CS101", "B+")] |}.

(** The instructor of the sample once the grades are loaded. *)
Definition kay : Instructor.t :=
  {| Instructor._cwid := "9"; Instructor._name := "Kay"; Instructor._dept := "CS";
     Instructor._courses := [("CS101", 2%nat)] |}.

(** A student with a grade string that the grade point table lacks. *)
Definition zed : Student.t :=
  {| Student._cwid := "3"; Student._name := "Zed"; Student._major := "CS";
     Student._courses := [("CS101", "A"); ("CS102", "Pass")] |}.

(** Students with two grades. *)
Definition two_As : Student.t :=
  {| Student._cwid := "4"; Student._name := "Ann"; Student._major := "CS";
     Student._courses := [("CS101", "A"); ("CS102", "A")] |}.
Definition an_A_and_a_C : Student.t :=
  {| Student._cwid := "5"; Student._name := "Cy"; Student._major := "CS";
     Student._courses := [("CS101", "A"); ("CS102", "C")] |}.

(** A heap with the major of the sample, at address 3, and the courses of
    the student Amy, at address 4. *)
Definition sample_heap : Heap.t :=
  [Heap.OStr "CS"; Heap.OSet {["CS101"; "CS102"]}; Heap.OSet {["CS200"]};
   Heap.OMajor 0 1 2; Heap.ODict [("CS101", "B+")]].

(** ** Loops over the reader *)

(** How a loop over a generator ends when its body never raises, and what
    it makes of the object: the bodies one after another. *)
Definition end_of {A} (g : gen A) : outcome unit :=
  match thrown g with
  | Some e => Raise e
  | None => Return tt
  end.

Definition step {S A} (body : A → M S unit) (s : S) (a : A) : S := state_of (body a s).

(** What a majors record does to the majors dictionary: the major is
    created when it is new, before the flag is looked at, and the course is
    added to it by [Major.add_course]. *)
Definition majors_step (major flag course : string)
    (d : Dict.t Major.t) : Dict.t Major.t :=
  Dict.set d major
    (state_of (Major.add_course course flag
                 (default (Major.__init__ major) (Dict.get d major)))).

Definition majors_step_record (d : Dict.t Major.t) (record : list string) : Dict.t Major.t :=
  match record with
  | [major; flag; course] => majors_step major flag course d
  | _ => d
  end.

(** The flags that [Major.add_course] accepts. *)
Definition valid_flag (record : list string) : Prop :=
  record !! 1%nat = Some "R" ∨ record !! 1%nat = Some "E".

(** Every major of a dictionary is stored under its own name. *)
Definition majors_named (d : Dict.t Major.t) : Prop :=
  ∀ major obj, Dict.get d major = Some obj → Major._major obj = major.

(** The required courses and the electives of a major of a dictionary,
    none when the major is not there. *)
Definition required_of (d : Dict.t Major.t) (major : string) : gset string :=
  from_option Major._required ∅ (Dict.get d major).
Definition electives_of (d : Dict.t Major.t) (major : string) : gset string :=
  from_option Major._electives ∅ (Dict.get d major).

(** A majors file whose third line has a flag that is neither R nor E,
    and whose last line lacks two fields. *)
Definition bad_flag_majors_txt : file := λ _,
  [["Major"; "Required/Elective"; "Course"];
   ["CS"; "R"; "CS101"];
   ["EE"; "X"; "EE100"];
   ["CS"]].

(** A students file that names the CWID 1 three times, the last time with
    a major that the sample lacks, and a grades file with two grades of the
    same student for the same course. *)
Definition duplicate_students_txt : file := λ _,
  [["CWID"; "Name"; "Major"];
   ["1"; "Amy"; "CS"];
   ["1"; "Amy B"; "CS"];
   ["1"; "Amy C"; "EE"]].
Definition repeated_grades_txt : file := λ _,
  [["Student CWID"; "Course"; "Grade"; "Instructor CWID"];
   ["1"; "CS101"; "F"; "9"];
   ["1"; "CS101"; "A"; "9"];
   ["1"; "CS200"; "B"; "9"]].

(** The repository of the sample with its major and one student, before
    any grade. *)
Definition sample_repository : Repository.t :=
  {| Repository._path := "HW11";
     Repository._students := [("1", Student.__init__ "1" "Amy" "CS")];
     Repository._instructors := [];
     Repository._majors := [("CS", cs_major)] |}.

(** The rows of the instructor table, and the pair of CWID and course that
    identifies a row. *)
Definition instructor_rows (self : Repository.t) : list (list cell) :=
  concat (map Instructor.info (Dict.values (Repository._instructors self))).
Definition row_key (row : list cell) : option cell * option cell :=
  (row !! 0%nat, row !! 3%nat).

(** No CWID is a key twice, every instructor is stored under its own
    CWID, has no course twice and no counter below 1. *)
Definition instructors_consistent (self : Repository.t) : Prop :=
  NoDup (Dict.keys (Repository._instructors self))
  ∧ ∀ cwid instructor,
      Dict.get (Repository._instructors self) cwid = Some instructor →
      Instructor._cwid instructor = cwid
      ∧ NoDup (Dict.keys (Instructor._courses instructor))
      ∧ Forall (λ count, 1 ≤ count)%nat (Dict.values (Instructor._courses instructor)).

(** What the reports print before the grade summary is queried, for the
    rows of the student table: the captions, a line for each student
    without courses, whose average divides by zero, and the three tables. *)
Definition tables_output `{SetOrder} (self : Repository.t)
    (student_rows : list (list cell)) : list event :=
  [Print (nl +:+ "Majors Table");
   PrintTable Major.FIELD_NAMES (map Major.info (Dict.values (Repository._majors self)));
   Print (nl +:+ "Student Table ")]
  ++ replicate
       (length (filter (λ student, Student._courses student = [])
                  (Dict.values (Repository._students self))))
       (Print "division by zero")
  ++ [PrintTable Student.FIELD_NAMES student_rows;
      Print (nl +:+ "Instructor Table ");
      PrintTable Instructor.FIELD_NAMES (instructor_rows self);
      Print (nl +:+ "Student Grade Summary")].

(** Every grade of every student has grade points. *)
Definition grades_known (self : Repository.t) : Prop :=
  ∀ cwid student,
    Dict.get (Repository._students self) cwid = Some student →
    first_unknown (Dict.values (Student._courses student)) = None.

(** Two stores that cannot be opened: the exception that [sqlite3.connect]
    raises for a file it cannot open, which the handler does not take, and
    the [ValueError] of a path with a null character, which it takes. *)
Definition missing_database : Database :=
  λ _, Raise (OperationalError "unable to open database file").
Definition null_path_database : Database :=
  λ _, Raise (ValueError "embedded null byte").

(** ** The earlier version of the program *)

(** [Student_Repository_Malav_Shah.py], as a client that imports the
    module uses it: a repository without majors, whose reader is called
    with [header=False] and whose student table is built but not printed.
    The class [Instructor] and the function [file_reader] have the text of
    the later version. *)
Module HW09.
Module Student.
Record t : Type := {
  _cwid : string;
  _name : string;
  _major : string;
  _courses : Dict.t string
}.

Definition FIELD_NAMES : list string := ["CWID"; "Name"; "Completed Courses"].

Definition __init__ (cwid name major : string) : t :=
  {| _cwid := cwid; _name := name; _major := major; _courses := Dict.empty |}.

Definition add_course (course grade : string) : M t unit :=
  modify_self (λ self, {| _cwid := _cwid self; _name := _name self;
                          _major := _major self;
                          _courses := Dict.set (_courses self) course grade |}).

Definition info (self : t) : list cell :=
  [CStr (_cwid self); CStr (_name self); CList (sorted (Dict.keys (_courses self)))].
End Student.

Module Repository.
Record t : Type := {
  _path : string;
  _students : Dict.t Student.t;
  _instructors : Dict.t Instructor.t
}.

Definition set_students (f : Dict.t Student.t → Dict.t Student.t) (self : t) : t :=
  {| _path := _path self; _students := f (_students self);
     _instructors := _instructors self |}.
Definition set_instructors (f : Dict.t Instructor.t → Dict.t Instructor.t) (self : t) : t :=
  {| _path := _path self; _students := _students self;
     _instructors := f (_instructors self) |}.

Definition fresh (path : string) : t :=
  {| _path := path; _students := Dict.empty; _instructors := Dict.empty |}.

Definition on_student {A} (key : string) (m : M Student.t A) : M t A :=
  on_object (λ self, Dict.get (_students self) key)
            (λ self obj, set_students (λ d, Dict.set d key obj) self)
            (KeyError key) m.
Definition on_instructor {A} (key : string) (m : M Instructor.t A) : M t A :=
  on_object (λ self, Dict.get (_instructors self) key)
            (λ self obj, set_instructors (λ d, Dict.set d key obj) self)
            (KeyError key) m.

Definition students_record (record : list string) : M t unit :=
  match record with
  | [cwid; name; major] =>
      modify_self (set_students (λ d,
        Dict.set d cwid (Student.__init__ cwid name major)))
  | _ => raise (unpack_error 3 (length record))
  end.

Definition instructors_record (record : list string) : M t unit :=
  match record with
  | [cwid; name; dept] =>
      modify_self (set_instructors (λ d,
        Dict.set d cwid (Instructor.__init__ cwid name dept)))
  | _ => raise (unpack_error 3 (length record))
  end.

Definition grades_record (record : list string) : M t unit :=
  match record with
  | [std_cwid; course; grade; instructor_cwid] =>
      self ← get_self;
      (if Dict.mem std_cwid (_students self) then
         on_student std_cwid (Student.add_course course grade)
       else print ("Grades for student is " +:+ std_cwid));;
      self ← get_self;
      if Dict.mem instructor_cwid (_instructors self) then
        on_instructor instructor_cwid (Instructor.add_student course)
      else print ("Grades for instructor is " +:+ instructor_cwid)
  | _ => raise (unpack_error 4 (length record))
  end.

Definition _get_students (fs : FileSystem) (path : string) : M t unit :=
  for_gen (file_reader fs path 3 tab false) students_record.

Definition _get_instructors (fs : FileSystem) (path : string) : M t unit :=
  for_gen (file_reader fs path 3 tab false) instructors_record.

Definition _get_grades (fs : FileSystem) (path : string) : M t unit :=
  for_gen (file_reader fs path 4 tab false) grades_record.

(** The table is filled and dropped: its [print] is commented out. *)
Definition student_table : M t unit :=
  self ← get_self;
  let table := map Student.info (Dict.values (_students self)) in
  ret tt.

Definition instructor_table : M t unit :=
  self ← get_self;
  print_table Instructor.FIELD_NAMES
    (concat (map Instructor.info (Dict.values (_instructors self)))).

Definition is_load_error (e : exn) : bool :=
  match e with
  | FileNotFoundError _ | ValueError _ => true
  | _ => false
  end.

Definition load (fs : FileSystem) : M t unit :=
  self ← get_self;
  _get_students fs (path_join (_path self) "students.txt");;
  self ← get_self;
  _get_instructors fs (path_join (_path self) "instructors.txt");;
  self ← get_self;
  _get_grades fs (path_join (_path self) "grades.txt").

Definition reports (tables : bool) : M t unit :=
  if tables then
    print (nl +:+ "Student Table ");;
    student_table;;
    print (nl +:+ "Instructor Table ");;
    instructor_table
  else ret tt.

Definition __init__ (fs : FileSystem) (path : string) (tables : bool)
    : outcome unit * t * list event :=
  try_except_else (load fs) is_load_error
    (λ e, print (str_exn e))
    (reports tables)
    (fresh path).
End Repository.
End HW09.

(** The lines that a grade record prints, as the repository [self] knows
    its student and its instructor. *)
Definition grade_diagnostics (self : Repository.t) (record : list string) : list event :=
  match record with
  | [std_cwid; _; _; instructor_cwid] =>
      (if Dict.mem std_cwid (Repository._students self) then []
       else [Print ("Grades for student is " +:+ std_cwid)])
      ++ (if Dict.mem instructor_cwid (Repository._instructors self) then []
          else [Print ("Grades for instructor is " +:+ instructor_cwid)])
  | _ => []
  end.

(** * Properties *)

(** ** Generators and loops *)


(** ** The record reader *)

Section reader.
Variables (path : string) (fields : nat).

Lemma read_rows_prefix (pre rest : list (list string)) (line_num : nat) :
  Forall (well_formed fields) pre →
  yielded (read_rows path fields (pre ++ rest) line_num false)
    = pre ++ yielded (read_rows path fields rest (line_num + length pre) false)
  ∧ thrown (read_rows path fields (pre ++ rest) line_num false)
    = thrown (read_rows path fields rest (line_num + length pre) false).
Proof.
  intros Hpre. revert line_num.
  induction Hpre as [|line pre Hline _ IH]; intros line_num; simpl.
  - by rewrite Nat.add_0_r.
  - case_decide as Hlen; [by destruct Hlen|]. simpl.
    destruct (IH (S line_num)) as [IHy IHt].
    replace (line_num + S (length pre)) with (S line_num + length pre) by lia.
    by rewrite IHy, IHt.
Qed.

Lemma read_rows_header (line : list string) (rest : list (list string)) (line_num : nat) :
  well_formed fields line →
  read_rows path fields (line :: rest) line_num true
    = read_rows path fields rest (S line_num) false.
Proof. intros Hline. simpl. by case_decide. Qed.


End reader.





(** ** Sets, their enumeration and [sorted] *)

Lemma elem_of_set_to_list `{SetOrder} (X : gset string) (x : string) :
  x ∈ set_to_list X ↔ x ∈ X.
Proof. by rewrite set_to_list_perm, elem_of_elements. Qed.

Lemma NoDup_set_to_list `{SetOrder} (X : gset string) : NoDup (set_to_list X).
Proof. rewrite set_to_list_perm. apply NoDup_elements. Qed.

Lemma Sorted_sorted (l : list string) : Sorted str_le (sorted l).
Proof. apply Sorted_merge_sort, _. Qed.

Lemma sorted_perm (l : list string) : sorted l ≡ₚ l.
Proof. apply merge_sort_Permutation. Qed.

(** ** Major.remaining *)

Lemma elem_of_GRADES (grade : string) :
  grade ∈ Major.GRADES ↔
  grade = "A" ∨ grade = "A-" ∨ grade = "B+" ∨ grade = "B" ∨ grade = "B-"
  ∨ grade = "C+" ∨ grade = "C".
Proof. unfold Major.GRADES. set_solver. Qed.

(** The set [passed] of [Major.remaining]. *)
Lemma elem_of_passed (completed : Dict.t string) (course : string) :
  course ∈ (list_to_set ((filter (λ cg, cg.2 ∈ Major.GRADES) (Dict.items completed)).*1)
              : gset string)
  ↔ ∃ grade, (course, grade) ∈ Dict.items completed ∧ grade ∈ Major.GRADES.
Proof.
  rewrite elem_of_list_to_set, list_elem_of_fmap. split.
  - intros ([c g] & -> & Hin). apply list_elem_of_filter in Hin as [Hg Hin].
    exists g. by split.
  - intros (g & Hin & Hg). exists (course, g). split; [done|].
    by apply list_elem_of_filter.
Qed.

(** C4. [Major.remaining] returns the name of the major; the passed courses
    are exactly the completed courses whose grade is one of the seven passing
    grade strings; the remaining required courses are the required ones not
    passed; the electives owed are none when a passed course is an elective
    and all the electives otherwise. *)
Theorem remaining_spec `{SetOrder} (self : Major.t) (completed : Dict.t string) :
  let '(major, passed, remaining, electives) := Major.remaining self completed in
  major = Major._major self
  ∧ (∀ course, course ∈ passed ↔
       ∃ grade, (course, grade) ∈ Dict.items completed
                ∧ grade ∈ ["A"; "A-"; "B+"; "B"; "B-"; "C+"; "C"])
  ∧ (∀ course, course ∈ remaining ↔
       course ∈ Major._required self ∧ course ∉ passed)
  ∧ ((∃ course, course ∈ passed ∧ course ∈ Major._electives self) → electives = [])
  ∧ ((¬ ∃ course, course ∈ passed ∧ course ∈ Major._electives self) →
       ∀ course, course ∈ electives ↔ course ∈ Major._electives self)
  ∧ NoDup passed ∧ NoDup remaining ∧ NoDup electives.
Proof.
  unfold Major.remaining. cbv zeta. simpl list_of.
  set (passed := list_to_set _ : gset string).
  assert (Hpassed : ∀ course, course ∈ set_to_list passed ↔
            ∃ grade, (course, grade) ∈ Dict.items completed
                     ∧ grade ∈ ["A"; "A-"; "B+"; "B"; "B-"; "C+"; "C"]).
  { intros course. rewrite elem_of_set_to_list. unfold passed.
    rewrite elem_of_passed. f_equiv. intros grade.
    rewrite elem_of_GRADES, !elem_of_cons, elem_of_nil. tauto. }
  clearbody passed.
  split; [done|]. split; [done|]. clear Hpassed. split.
  { intros course. rewrite !elem_of_set_to_list. set_solver. }
  split; [|split; [|split; [|split]]].
  - intros (course & Hp & He). rewrite elem_of_set_to_list in Hp.
    case_decide as Hcap; [done|]. exfalso. set_solver.
  - intros Hnone course. case_decide as Hcap; simpl.
    + exfalso. apply Hnone. apply set_choose_L in Hcap as [course' Hcap].
      exists course'. rewrite elem_of_set_to_list. set_solver.
    + apply elem_of_set_to_list.
  - apply NoDup_set_to_list.
  - apply NoDup_set_to_list.
  - case_decide; simpl; [constructor | apply NoDup_set_to_list].
Qed.

(** C6, as stated, fails: [Major.remaining] lists each set in its iteration
    order.  With the descending order the required courses still owed by a
    student without grades come out as CS102, CS101. *)
Lemma remaining_not_sorted :
  ¬ (∀ (order : SetOrder) (self : Major.t) (completed : Dict.t string),
       let '(_, passed, remaining, electives) :=
         @Major.remaining order self completed in
       Sorted str_le passed ∧ Sorted str_le remaining ∧ Sorted str_le electives).
Proof.
  intros Hall. specialize (Hall descending_order cs_major []).
  vm_compute in Hall. destruct Hall as (_ & Hremaining & _).
  inversion Hremaining as [|? ? _ Hhd]. inversion Hhd as [|? ? Hle].
  discriminate Hle.
Qed.

(** C6, amended.  [Student.info] sorts what [Major.remaining] returns: the
    row of a student holds, for the passed courses, the remaining required
    courses and the electives owed, the sorted rearrangement of each list. *)
Theorem student_info_sorted `{SetOrder} {S : Type} (majors : Dict.t Major.t)
    (self : Student.t) (major_object : Major.t) :
  Dict.get majors (Student._major self) = Some major_object →
  let '(major, passed, remaining, electives) :=
    Major.remaining major_object (Student._courses self) in
  ∃ passed' remaining' electives',
    (Sorted str_le passed' ∧ passed' ≡ₚ passed)
    ∧ (Sorted str_le remaining' ∧ remaining' ≡ₚ remaining)
    ∧ (Sorted str_le electives' ∧ electives' ≡ₚ electives)
    ∧ @Student.info _ S majors self
      = (g ← Student.gpa self;
         ret [CStr (Student._cwid self); CStr (Student._name self); CStr major;
              CList passed'; CList remaining'; CList electives';
              Student.float_cell g]).
Proof.
  intros Hmajor. unfold Student.info. rewrite Hmajor.
  destruct (Major.remaining major_object (Student._courses self))
    as [[[major passed] remaining] electives].
  exists (sorted passed), (sorted remaining), (sorted electives).
  repeat split; auto using Sorted_sorted, sorted_perm.
Qed.

Lemma student_info_sorted_witness :
  Dict.get [("CS", cs_major)] (Student._major amy) = Some cs_major
  ∧ (let '(major, passed, remaining, electives) :=
       @Major.remaining descending_order cs_major (Student._courses amy) in
     ∃ passed' remaining' electives',
       (Sorted str_le passed' ∧ passed' ≡ₚ passed)
       ∧ (Sorted str_le remaining' ∧ remaining' ≡ₚ remaining)
       ∧ (Sorted str_le electives' ∧ electives' ≡ₚ electives)
       ∧ @Student.info descending_order unit [("CS", cs_major)] amy
         = (g ← Student.gpa amy;
            ret [CStr (Student._cwid amy); CStr (Student._name amy); CStr major;
                 CList passed'; CList remaining'; CList electives';
                 Student.float_cell g]))
  ∧ @Student.info descending_order unit [("CS", cs_major)] amy tt
    = (Return [CStr "1"; CStr "Amy"; CStr "CS"; CList ["CS101"]; CList ["CS102"];
               CList ["CS200"]; CFloat (13 # 4)], tt, []).
Proof.
  split; [reflexivity|]. split.
  - exact (@student_info_sorted descending_order unit [("CS", cs_major)] amy
             cs_major eq_refl).
  - vm_compute. reflexivity.
Defined.

(** ** Dictionaries *)

Lemma get_set {V} (d : Dict.t V) (k k' : string) (v : V) :
  Dict.get (Dict.set d k v) k' = if decide (k = k') then Some v else Dict.get d k'.
Proof.
  induction d as [|[k0 v0] d IH]; simpl.
  - by repeat case_decide.
  - repeat (case_decide; simpl; subst); done.
Qed.

Lemma get_set_eq {V} (d : Dict.t V) (k : string) (v : V) :
  Dict.get (Dict.set d k v) k = Some v.
Proof. by rewrite get_set, decide_True. Qed.

Lemma mem_true {V} (k : string) (d : Dict.t V) :
  Dict.mem k d = true ↔ is_Some (Dict.get d k).
Proof. unfold Dict.mem. by rewrite bool_decide_eq_true. Qed.

Lemma mem_false {V} (k : string) (d : Dict.t V) :
  Dict.mem k d = false ↔ Dict.get d k = None.
Proof.
  unfold Dict.mem. by rewrite bool_decide_eq_false, <- eq_None_not_Some.
Qed.

Lemma keys_set_present {V} (d : Dict.t V) (k : string) (v : V) :
  is_Some (Dict.get d k) → Dict.keys (Dict.set d k v) = Dict.keys d.
Proof.
  unfold Dict.keys. induction d as [|[k0 v0] d IH]; simpl.
  - by intros [? ?].
  - case_decide; simpl; subst; [done|]. intros Hin. f_equal. by apply IH.
Qed.

(** ** The monad *)

Lemma preserves_ret {S A} (P : S → Prop) (a : A) : preserves P (ret a).
Proof. by intros s. Qed.

Lemma preserves_raise {S A} (P : S → Prop) (e : exn) : preserves P (@raise S A e).
Proof. by intros s. Qed.

Lemma preserves_bind {S A B} (P : S → Prop) (m : M S A) (f : A → M S B) :
  preserves P m → (∀ a, preserves P (f a)) → preserves P (bind m f).
Proof.
  intros Hm Hf s Hs. unfold bind. specialize (Hm s Hs).
  destruct (m s) as [[[a|e] s'] out]; [|done].
  specialize (Hf a s' Hm). by destruct (f a s') as [[r s''] out'].
Qed.

Lemma preserves_for_gen {S A} (P : S → Prop) (g : gen A) (body : A → M S unit) :
  (∀ a, preserves P (body a)) → preserves P (for_gen g body).
Proof.
  intros Hbody. induction g as [|a rest IH|e]; simpl.
  - apply preserves_ret.
  - by apply preserves_bind.
  - apply preserves_raise.
Qed.

(** ** The load phases, record by record *)

Ltac run_record :=
  unfold Repository.majors_record, Repository.students_record,
    Repository.instructors_record, Repository.grades_record,
    Repository.on_major, Repository.on_student, Repository.on_instructor,
    on_object, Major.add_course, Student.add_course, Instructor.add_student,
    bind, get_self, modify_self, ret, raise, print,
    state_of, outcome_of, output_of; simpl.

(** A record of the majors file leaves students and instructors alone and
    loses no major. *)
Lemma majors_record_frame (record : list string) (s : Repository.t) :
  let s' := state_of (Repository.majors_record record s) in
  Repository._students s' = Repository._students s
  ∧ Repository._instructors s' = Repository._instructors s
  ∧ Repository._path s' = Repository._path s
  ∧ ∀ key, is_Some (Dict.get (Repository._majors s) key) →
           is_Some (Dict.get (Repository._majors s') key).
Proof.
  destruct record as [|major [|flag [|course [|? ?]]]]; try by run_record.
  run_record.
  destruct (Dict.mem major (Repository._majors s)) eqn:Hmem; simpl.
  - apply mem_true in Hmem as [obj Hobj]. rewrite Hobj.
    repeat case_decide; simpl; repeat split; try done;
      intros key Hkey; rewrite get_set; by case_decide.
  - rewrite get_set_eq.
    repeat case_decide; simpl; repeat split; try done;
      intros key Hkey; rewrite ?get_set; repeat case_decide; done.
Qed.

(** A record of the students file: a student is stored only under a major
    that the store holds. *)
Lemma students_record_run (cwid name major : string) (s : Repository.t) :
  Repository.students_record [cwid; name; major] s
  = if Dict.mem major (Repository._majors s) then
      (Return tt,
       Repository.set_students
         (λ d, Dict.set d cwid (Student.__init__ cwid name major)) s,
       [])
    else
      (Return tt, s,
       [Print ("Student " +:+ cwid +:+ " '" +:+ name
               +:+ "' has unknown major '" +:+ major +:+ "'")]).
Proof. run_record. by destruct (Dict.mem major (Repository._majors s)). Qed.

Lemma students_record_resolve (record : list string) :
  preserves references_resolve (Repository.students_record record).
Proof.
  intros s Hs.
  destruct record as [|cwid [|name [|major [|? ?]]]]; try by run_record.
  rewrite students_record_run.
  destruct (Dict.mem major (Repository._majors s)) eqn:Hmem; [|done].
  apply mem_true in Hmem. intros cwid' student. unfold state_of; simpl.
  rewrite get_set. case_decide; [|by apply Hs].
  by intros [= <-].
Qed.

Lemma majors_record_resolve (record : list string) :
  preserves references_resolve (Repository.majors_record record).
Proof.
  intros s Hs cwid student.
  destruct (majors_record_frame record s) as (Hstudents & _ & _ & Hmajors).
  rewrite Hstudents. intros Hstudent. by apply Hmajors, (Hs cwid).
Qed.

Lemma instructors_record_frame (record : list string) (s : Repository.t) :
  let s' := state_of (Repository.instructors_record record s) in
  Repository._students s' = Repository._students s
  ∧ Repository._majors s' = Repository._majors s
  ∧ Repository._path s' = Repository._path s.
Proof. by destruct record as [|cwid [|name [|dept [|? ?]]]]. Qed.

Lemma instructors_record_resolve (record : list string) :
  preserves references_resolve (Repository.instructors_record record).
Proof.
  intros s Hs cwid student.
  destruct (instructors_record_frame record s) as (-> & -> & _). apply Hs.
Qed.

(** A record of the grades file never raises; it updates the student and
    the instructor it names, each if the store knows it. *)
Lemma grades_record_run (std_cwid course grade instructor_cwid : string)
    (s : Repository.t) :
  Repository.grades_record [std_cwid; course; grade; instructor_cwid] s
  = (Return tt,
     {| Repository._path := Repository._path s;
        Repository._students :=
          grade_students std_cwid course grade (Repository._students s);
        Repository._instructors :=
          grade_instructors instructor_cwid course (Repository._instructors s);
        Repository._majors := Repository._majors s |},
     (if Dict.mem std_cwid (Repository._students s) then []
      else [Print ("Grades for student is " +:+ std_cwid)])
     ++ (if Dict.mem instructor_cwid (Repository._instructors s) then []
         else [Print ("Grades for instructor is " +:+ instructor_cwid)])).
Proof.
  run_record. unfold grade_students, grade_instructors.
  destruct (Dict.mem std_cwid (Repository._students s)) eqn:Hstd; simpl.
  - apply mem_true in Hstd as [student Hstudent]. rewrite Hstudent. simpl.
    destruct (Dict.mem instructor_cwid (Repository._instructors s)) eqn:Hins; simpl.
    + apply mem_true in Hins as [instructor Hinstructor]. rewrite Hinstructor.
      by destruct s.
    + apply mem_false in Hins. rewrite Hins. by destruct s.
  - apply mem_false in Hstd. rewrite Hstd.
    destruct (Dict.mem instructor_cwid (Repository._instructors s)) eqn:Hins; simpl.
    + apply mem_true in Hins as [instructor Hinstructor]. rewrite Hinstructor.
      by destruct s.
    + apply mem_false in Hins. rewrite Hins. by destruct s.
Qed.

Lemma grades_record_frame (record : list string) (s : Repository.t) :
  let s' := state_of (Repository.grades_record record s) in
  Repository._majors s' = Repository._majors s
  ∧ Repository._path s' = Repository._path s
  ∧ Dict.keys (Repository._students s') = Dict.keys (Repository._students s)
  ∧ Dict.keys (Repository._instructors s') = Dict.keys (Repository._instructors s).
Proof.
  destruct record as [|std_cwid [|course [|grade [|instructor_cwid [|? ?]]]]];
    try by run_record.
  rewrite grades_record_run. unfold state_of; simpl.
  unfold grade_students, grade_instructors. repeat split.
  - destruct (Dict.get _ std_cwid) eqn:Hget; [|done].
    by rewrite keys_set_present.
  - destruct (Dict.get _ instructor_cwid) eqn:Hget; [|done].
    by rewrite keys_set_present.
Qed.

Lemma grades_record_resolve (record : list string) :
  preserves references_resolve (Repository.grades_record record).
Proof.
  intros s Hs.
  destruct record as [|std_cwid [|course [|grade [|instructor_cwid [|? ?]]]]];
    try by run_record.
  rewrite grades_record_run. unfold state_of; simpl.
  intros cwid student. simpl. unfold grade_students.
  destruct (Dict.get _ std_cwid) as [student0|] eqn:Hget; [|exact (Hs cwid student)].
  rewrite get_set. case_decide; [|exact (Hs cwid student)].
  subst. intros [= <-]. exact (Hs cwid student0 Hget).
Qed.

(** ** Computations that leave the object alone *)

Lemma keeps_state_ret {S A} (a : A) : keeps_state (@ret S A a).
Proof. done. Qed.

Lemma keeps_state_bind {S A B} (m : M S A) (f : A → M S B) :
  keeps_state m → (∀ a, keeps_state (f a)) → keeps_state (bind m f).
Proof.
  intros Hm Hf s. unfold bind. specialize (Hm s).
  destruct (m s) as [[[a|e] s'] out]; [|done].
  unfold state_of in Hm; simpl in Hm; subst s'.
  specialize (Hf a s). by destruct (f a s) as [[r s''] out'].
Qed.

Lemma keeps_state_get_self {S A} (f : S → M S A) :
  (∀ s, keeps_state (f s)) → keeps_state (bind get_self f).
Proof.
  intros Hf s. unfold bind, get_self. specialize (Hf s s).
  by destruct (f s s) as [[r s'] out].
Qed.

Lemma keeps_state_try_except {S A} (body : M S A) (classes : exn → bool)
    (handler : exn → M S A) :
  keeps_state body → (∀ e, keeps_state (handler e)) →
  keeps_state (try_except body classes handler).
Proof.
  intros Hbody Hhandler s. unfold try_except. specialize (Hbody s).
  destruct (body s) as [[[a|e] s'] out]; [done|].
  unfold state_of in Hbody; simpl in Hbody; subst s'.
  destruct (classes e); [|done].
  specialize (Hhandler e s). by destruct (handler e s) as [[r s''] out'].
Qed.

Lemma keeps_state_comprehension {S A B} (f : A → M S B) (l : list A) :
  (∀ a, keeps_state (f a)) → keeps_state (comprehension f l).
Proof.
  intros Hf. induction l as [|a l IH]; simpl; [done|].
  apply keeps_state_bind; [done|]. intros b.
  apply keeps_state_bind; [done|]. intros bs. apply keeps_state_ret.
Qed.

Lemma keeps_state_getitem {S V} (d : Dict.t V) (k : string) :
  keeps_state (@getitem S V d k).
Proof. unfold getitem. by destruct (Dict.get d k). Qed.

Lemma keeps_state_gpa {S} (self : Student.t) : keeps_state (@Student.gpa S self).
Proof.
  apply keeps_state_try_except.
  - apply keeps_state_bind.
    + apply keeps_state_comprehension. intros grade. apply keeps_state_getitem.
    + intros points. apply keeps_state_bind; [|done].
      unfold Student.truediv. by case_decide.
  - intros e. by apply keeps_state_bind.
Qed.

Lemma keeps_state_info `{SetOrder} {S} (majors : Dict.t Major.t) (self : Student.t) :
  keeps_state (@Student.info _ S majors self).
Proof.
  unfold Student.info. destruct (Dict.get majors _); [|done].
  destruct (Major.remaining _ _) as [[[major passed] remaining] electives].
  apply keeps_state_bind; [apply keeps_state_gpa | done].
Qed.

Lemma keeps_state_student_table `{SetOrder} : keeps_state Repository.student_table.
Proof.
  apply keeps_state_get_self. intros self.
  apply keeps_state_bind; [|done].
  apply keeps_state_comprehension. intros student. apply keeps_state_info.
Qed.

Lemma keeps_state_instructor_table_db (db : Database) (db_path : string) :
  keeps_state (Repository.instructor_table_db db db_path).
Proof.
  unfold Repository.instructor_table_db.
  apply keeps_state_bind.
  - apply keeps_state_try_except.
    + by destruct (db db_path).
    + intros e. by apply keeps_state_bind.
  - intros [[rows|e]|]; done.
Qed.

Lemma keeps_state_reports `{SetOrder} (db : Database) (tables : bool) :
  keeps_state (Repository.reports db tables).
Proof.
  unfold Repository.reports. destruct tables; [|done].
  apply keeps_state_bind; [done|intros _].
  apply keeps_state_bind; [done|intros _].
  apply keeps_state_bind; [done|intros _].
  apply keeps_state_bind; [apply keeps_state_student_table|intros _].
  apply keeps_state_bind; [done|intros _].
  apply keeps_state_bind; [done|intros _].
  apply keeps_state_bind; [done|intros _].
  apply keeps_state_instructor_table_db.
Qed.

(** The object that the constructor leaves is the one the load left. *)
Lemma init_state `{SetOrder} (fs : FileSystem) (db : Database) (path : string)
    (tables : bool) :
  state_of (Repository.__init__ fs db path tables)
  = state_of (Repository.load fs path (Repository.fresh path)).
Proof.
  unfold Repository.__init__, try_except_else.
  destruct (Repository.load fs path (Repository.fresh path)) as [[[[]|e] s] out].
  - pose proof (keeps_state_reports db tables s) as Hreports.
    by destruct (Repository.reports db tables s) as [[r s'] out'].
  - by destruct (Repository.is_load_error e).
Qed.

Lemma load_resolve (fs : FileSystem) (path : string) :
  preserves references_resolve (Repository.load fs path).
Proof.
  unfold Repository.load.
  repeat (apply preserves_bind; [|intros _]); apply preserves_for_gen.
  - apply majors_record_resolve.
  - apply students_record_resolve.
  - apply instructors_record_resolve.
  - apply grades_record_resolve.
Qed.


(** ** What the load can raise and print *)










(** The phases after the majors leave the majors alone; those after the
    students keep the students' keys, and so on. *)
Lemma students_record_frame (record : list string) (s : Repository.t) :
  let s' := state_of (Repository.students_record record s) in
  Repository._majors s' = Repository._majors s
  ∧ Repository._instructors s' = Repository._instructors s
  ∧ Repository._path s' = Repository._path s.
Proof.
  destruct record as [|cwid [|name [|major [|? ?]]]]; try by run_record.
  rewrite students_record_run. by destruct (Dict.mem _ _).
Qed.

Lemma after_majors (fs : FileSystem) (path : string) (majors : Dict.t Major.t) :
  preserves (λ s, Repository._majors s = majors)
    (Repository._get_students fs (path_join path "students.txt");;
     Repository._get_instructors fs (path_join path "instructors.txt");;
     Repository._get_grades fs (path_join path "grades.txt")).
Proof.
  repeat (apply preserves_bind; [|intros _]); apply preserves_for_gen;
    intros record s <-.
  - apply students_record_frame.
  - apply instructors_record_frame.
  - apply grades_record_frame.
Qed.





(** ** Enrollment counters *)

Lemma sum_values_increment (d : Dict.t nat) (k : string) :
  sum_list (Dict.values (Dict.set d k (default 0 (Dict.get d k) + 1)))
  = S (sum_list (Dict.values d)).
Proof.
  unfold Dict.values. induction d as [|[k0 n0] d IH]; csimpl; [done|].
  case_decide; csimpl; [lia|]. rewrite IH. lia.
Qed.

Lemma add_student_counts (course : string) (instructor : Instructor.t) :
  let instructor' := state_of (Instructor.add_student course instructor) in
  (∀ c, enrollment instructor' c
        = enrollment instructor c + (if decide (course = c) then 1 else 0))
  ∧ total_enrollment instructor' = S (total_enrollment instructor).
Proof.
  unfold enrollment, total_enrollment, state_of; simpl. split.
  - intros c. rewrite get_set. case_decide; simpl; [subst; lia | lia].
  - apply sum_values_increment.
Qed.

Lemma counted_nil (d : Dict.t Instructor.t) : counted [] d d.
Proof. intros cwid. destruct (Dict.get d cwid); [|done]. simpl. split; intros; lia. Qed.

Lemma counted_record (d : Dict.t Instructor.t) (record : list string) :
  length record = 4 → counted [record] d (grade_instructors_record d record).
Proof.
  intros Hlen.
  destruct record as [|std_cwid [|course [|grade [|instructor_cwid [|? ?]]]]];
    try done.
  intros cwid. unfold grade_instructors_record, grade_instructors.
  destruct (Dict.get d instructor_cwid) as [instructor0|] eqn:Hget0.
  - rewrite get_set. case_decide as Hcwid.
    + subst cwid. rewrite Hget0.
      destruct (add_student_counts course instructor0) as [Hcourse Htotal].
      split.
      * intros c. rewrite Hcourse, filter_cons. simpl.
        repeat case_decide; simpl; try lia; naive_solver.
      * rewrite Htotal, filter_cons. simpl. case_decide; simpl; [lia|done].
    + destruct (Dict.get d cwid); [|done]. split.
      * intros c. rewrite filter_cons. simpl. case_decide; simpl; [naive_solver|lia].
      * rewrite filter_cons. simpl. case_decide; simpl; [naive_solver|lia].
  - destruct (Dict.get d cwid) eqn:Hget; [|done]. split.
    + intros c. rewrite filter_cons. simpl. case_decide; simpl; [naive_solver|lia].
    + rewrite filter_cons. simpl. case_decide; simpl; [naive_solver|lia].
Qed.

Lemma counted_app (records1 records2 : list (list string)) (d0 d1 d2 : Dict.t Instructor.t) :
  counted records1 d0 d1 → counted records2 d1 d2 → counted (records1 ++ records2) d0 d2.
Proof.
  intros H1 H2 cwid. specialize (H1 cwid). specialize (H2 cwid).
  destruct (Dict.get d0 cwid), (Dict.get d1 cwid), (Dict.get d2 cwid); try done.
  destruct H1 as [Hc1 Ht1], H2 as [Hc2 Ht2]. split.
  - intros course. rewrite Hc2, Hc1, filter_app, length_app. lia.
  - rewrite Ht2, Ht1, filter_app, length_app. lia.
Qed.

Lemma yielded_read_rows (path : string) (fields : nat) (rows : list (list string))
    (line_num : nat) (header : bool) :
  Forall (well_formed fields) (yielded (read_rows path fields rows line_num header)).
Proof.
  revert line_num header. induction rows as [|line rows IH]; intros line_num header;
    simpl; [constructor|].
  case_decide as Hlen; simpl; [constructor|].
  destruct header; simpl; [apply IH|].
  constructor; [|apply IH]. unfold well_formed.
  destruct (decide (length line = fields)); [done|by destruct Hlen].
Qed.

Lemma yielded_file_reader (fs : FileSystem) (path : string) (fields : nat)
    (sep : string) (header : bool) :
  Forall (well_formed fields) (yielded (file_reader fs path fields sep header)).
Proof.
  unfold file_reader. destruct (fs !! path); [apply yielded_read_rows|constructor].
Qed.

(** The grades loop counts, for every instructor of the store, the records
    that the reader yields. *)
Lemma grades_loop_counted (g : gen (list string)) (s : Repository.t) :
  Forall (well_formed 4) (yielded g) →
  counted (yielded g) (Repository._instructors s)
    (Repository._instructors (state_of (for_gen g Repository.grades_record s))).
Proof.
  revert s. induction g as [|record rest IH|e]; intros s Hlen; simpl in *.
  - apply counted_nil.
  - apply Forall_cons in Hlen as [Hrecord Hrest].
    pose proof (counted_record (Repository._instructors s) record Hrecord) as Hstep.
    destruct record as [|std_cwid [|course [|grade [|instructor_cwid [|? ?]]]]];
      try done.
    unfold bind. rewrite grades_record_run.
    match goal with
    | |- context [for_gen rest _ ?s1] =>
        specialize (IH s1 Hrest);
        destruct (for_gen rest Repository.grades_record s1) as [[r s2] out2]
    end.
    apply (counted_app [_] (yielded rest) _ _ _ Hstep IH).
  - apply counted_nil.
Qed.

Lemma load_entities_no_enrollment (fs : FileSystem) (path : string) :
  preserves no_enrollment (load_entities fs path).
Proof.
  unfold load_entities.
  repeat (apply preserves_bind; [|intros _]); apply preserves_for_gen;
    intros record s Hs cwid instructor.
  - destruct (majors_record_frame record s) as (_ & -> & _). apply Hs.
  - destruct (students_record_frame record s) as (_ & -> & _). apply Hs.
  - destruct record as [|cwid0 [|name [|dept [|? ?]]]]; try apply Hs.
    unfold state_of; simpl. rewrite get_set. case_decide; [|apply Hs].
    by intros [= <-].
Qed.

Lemma load_split (fs : FileSystem) (path : string) (s : Repository.t) :
  Repository.load fs path s
  = (load_entities fs path;;
     Repository._get_grades fs (path_join path "grades.txt")) s.
Proof.
  unfold Repository.load, load_entities, bind.
  destruct (Repository._get_majors _ _ s) as [[[[]|e1] s1] out1]; [|done].
  destruct (Repository._get_students _ _ s1) as [[[[]|e2] s2] out2]; [|done].
  destruct (Repository._get_instructors _ _ s2) as [[[[]|e3] s3] out3]; [|done].
  destruct (Repository._get_grades _ _ s3) as [[r4 s4] out4].
  by rewrite !app_assoc.
Qed.

(** C1, as stated, fails: the counter also counts the records whose student
    the store does not know.  In the sample the instructor 9 has two records
    for CS101 and one of them names the unknown student 7. *)
Lemma enrollment_counts_unknown_students :
  ¬ (∀ (order : SetOrder) (fs : FileSystem) (db : Database) (path : string)
       (tables : bool),
       let self := state_of (@Repository.__init__ order fs db path tables) in
       ∀ cwid instructor course,
         Dict.get (Repository._instructors self) cwid = Some instructor →
         enrollment instructor course
         = length (filter (λ record,
                     record !! 3%nat = Some cwid ∧ record !! 1%nat = Some course
                     ∧ names_known_student (Repository._students self) record = true)
                   (grades_processed fs path))).
Proof.
  intros Hall.
  specialize (Hall elements_order sample_fs no_database "HW11" true "9" kay "CS101").
  cbv zeta in Hall.
  assert (Hkay : Dict.get
    (Repository._instructors
       (state_of (@Repository.__init__ elements_order sample_fs no_database "HW11" true)))
    "9" = Some kay)
    by (vm_compute; reflexivity).
  specialize (Hall Hkay). vm_compute in Hall. discriminate Hall.
Qed.

(** C1, amended.  In the object that the constructor leaves, the counter of
    an instructor for a course is the number of grade records gone through
    that name this instructor and this course, whether or not the store
    knows their student; the counters of an instructor add up to the number
    of records that name the instructor. *)
Theorem enrollment_counts_grade_records `{SetOrder} (fs : FileSystem) (db : Database)
    (path : string) (tables : bool) :
  let self := state_of (Repository.__init__ fs db path tables) in
  ∀ cwid instructor,
    Dict.get (Repository._instructors self) cwid = Some instructor →
    (∀ course,
       enrollment instructor course
       = length (filter (λ record,
                   record !! 3%nat = Some cwid ∧ record !! 1%nat = Some course)
                 (grades_processed fs path)))
    ∧ total_enrollment instructor
      = length (filter (λ record, record !! 3%nat = Some cwid)
                  (grades_processed fs path)).
Proof.
  cbv zeta. rewrite init_state, load_split. unfold grades_processed.
  pose proof (load_entities_no_enrollment fs path (Repository.fresh path)) as Hempty.
  unfold bind, outcome_of, state_of in *.
  destruct (load_entities fs path (Repository.fresh path)) as [[[[]|e] s3] out3];
    simpl in *.
  - pose proof (grades_loop_counted
                  (file_reader fs (path_join path "grades.txt") 4 tab true) s3
                  (yielded_file_reader _ _ _ _ _)) as Hcounted.
    unfold Repository._get_grades, state_of in *.
    destruct (for_gen _ Repository.grades_record s3) as [[r4 s4] out4]; simpl in *.
    intros cwid instructor Hget. specialize (Hcounted cwid). rewrite Hget in Hcounted.
    destruct (Dict.get (Repository._instructors s3) cwid) as [instructor0|] eqn:Hget0;
      [|done].
    destruct Hcounted as [Hcourse Htotal].
    assert (Hnone : Instructor._courses instructor0 = []).
    { apply (Hempty ltac:(by intros ? ?) cwid instructor0 Hget0). }
    split.
    + intros course. rewrite Hcourse. unfold enrollment. by rewrite Hnone.
    + rewrite Htotal. unfold total_enrollment. by rewrite Hnone.
  - intros cwid instructor Hget.
    assert (Hnone : Instructor._courses instructor = []).
    { apply (Hempty ltac:(by intros ? ?) cwid instructor Hget). }
    unfold enrollment, total_enrollment. by rewrite Hnone.
Qed.

Lemma enrollment_counts_grade_records_witness :
  Dict.get
    (Repository._instructors
       (state_of (@Repository.__init__ elements_order sample_fs no_database "HW11" true)))
    "9" = Some kay
  ∧ enrollment kay "CS101" = 2%nat
  ∧ (∀ course,
       enrollment kay course
       = length (filter (λ record,
                   record !! 3%nat = Some "9" ∧ record !! 1%nat = Some course)
                 (grades_processed sample_fs "HW11")))
  ∧ total_enrollment kay
    = length (filter (λ record, record !! 3%nat = Some "9")
                (grades_processed sample_fs "HW11")).
Proof.
  assert (Hkay : Dict.get
    (Repository._instructors
       (state_of (@Repository.__init__ elements_order sample_fs no_database "HW11" true)))
    "9" = Some kay)
    by (vm_compute; reflexivity).
  split; [exact Hkay|]. split; [reflexivity|].
  exact (@enrollment_counts_grade_records elements_order sample_fs no_database "HW11"
           true "9" kay Hkay).
Defined.

(** ** Student.gpa *)

Lemma first_unknown_Some (grade_strings : list string) (grade : string) :
  first_unknown grade_strings = Some grade →
  grade ∈ grade_strings ∧ Dict.get Student.grades grade = None.
Proof.
  induction grade_strings as [|g rest IH];
    cbn [first_unknown points_of length]; [done|].
  destruct (Dict.get Student.grades g) eqn:Hg.
  - intros Hrest. destruct (IH Hrest). split; [by right|done].
  - intros [= <-]. split; [by left|done].
Qed.

Lemma first_unknown_None (grade_strings : list string) :
  first_unknown grade_strings = None ↔
  ∀ grade, grade ∈ grade_strings → is_Some (Dict.get Student.grades grade).
Proof.
  induction grade_strings as [|g rest IH]; cbn [first_unknown].
  - split; [intros _ grade Hin; by apply elem_of_nil in Hin|done].
  - destruct (Dict.get Student.grades g) eqn:Hg.
    + rewrite IH. split.
      * intros Hrest grade [->|Hin]%elem_of_cons; [by rewrite Hg|by apply Hrest].
      * intros Hall grade Hin. apply Hall. by right.
    + split; [done|]. intros Hall.
      destruct (Hall g) as [? Hsome]; [by left|congruence].
Qed.

(** The list comprehension of [gpa]: the points of all the grades, or the
    [KeyError] of the first grade that the table lacks. *)
Lemma comprehension_grades {S} (grade_strings : list string) (s : S) :
  comprehension (getitem Student.grades) grade_strings s
  = match first_unknown grade_strings with
    | Some grade => (Raise (KeyError grade), s, [])
    | None => (Return (points_of grade_strings), s, [])
    end.
Proof.
  induction grade_strings as [|g rest IH];
    cbn [first_unknown points_of comprehension]; [done|].
  unfold bind, getitem at 1.
  destruct (Dict.get Student.grades g) as [q|] eqn:Hg; [|done].
  unfold ret at 1. rewrite IH. by destruct (first_unknown rest).
Qed.

Lemma length_points_of (grade_strings : list string) :
  first_unknown grade_strings = None →
  length (points_of grade_strings) = length grade_strings.
Proof.
  induction grade_strings as [|g rest IH];
    cbn [first_unknown points_of length]; [done|].
  destruct (Dict.get Student.grades g); [|done]. cbn [length]. intros Hrest. by rewrite IH.
Qed.

(** [gpa], case by case. *)
Lemma gpa_run {S} (self : Student.t) (s : S) :
  Student.gpa self s
  = let grade_strings := Dict.values (Student._courses self) in
    match first_unknown grade_strings with
    | Some grade => (Raise (KeyError grade), s, [])
    | None =>
        if decide (length grade_strings = 0%nat) then
          (Return None, s, [Print "division by zero"])
        else
          (Return (Some (PyFloat.round
                           (PyFloat.div (PyFloat.sum (points_of grade_strings))
                              (PyFloat.of_int (Z.of_nat (length grade_strings)))) 2)),
           s, [])
    end.
Proof.
  cbv zeta. unfold Student.gpa, try_except, bind at 1.
  rewrite comprehension_grades.
  destruct (first_unknown (Dict.values (Student._courses self))); [done|].
  unfold bind, Student.truediv. by case_decide.
Qed.

Lemma get_values {V} (d : Dict.t V) (k : string) (v : V) :
  Dict.get d k = Some v → v ∈ Dict.values d.
Proof.
  unfold Dict.values. induction d as [|[k0 v0] d IH]; csimpl; [done|].
  case_decide.
  - intros [= ->]. by left.
  - intros Hget. right. by apply IH.
Qed.

Lemma keys_set {V} (d : Dict.t V) (k : string) (v : V) (k' : string) :
  k' ∈ Dict.keys (Dict.set d k v) ↔ k' = k ∨ k' ∈ Dict.keys d.
Proof.
  unfold Dict.keys. induction d as [|[k0 v0] d IH]; csimpl.
  - rewrite elem_of_cons. by rewrite elem_of_nil.
  - case_decide; csimpl; subst; rewrite !elem_of_cons; [tauto|].
    rewrite IH. tauto.
Qed.

Lemma NoDup_keys_set {V} (d : Dict.t V) (k : string) (v : V) :
  NoDup (Dict.keys d) → NoDup (Dict.keys (Dict.set d k v)).
Proof.
  induction d as [|[k0 v0] d IH]; simpl.
  - intros _. apply NoDup_singleton.
  - unfold Dict.keys in *. csimpl. intros [Hnotin Hd]%NoDup_cons.
    case_decide; csimpl; subst.
    + by apply NoDup_cons.
    + apply NoDup_cons. split; [|by apply IH].
      change ((Dict.set d k v).*1) with (Dict.keys (Dict.set d k v)).
      rewrite keys_set. intros [?|?]; [by subst|done].
Qed.

(** In a dictionary without repeated keys every value is reached by its
    key. *)
Lemma values_get {V} (d : Dict.t V) (v : V) :
  NoDup (Dict.keys d) → v ∈ Dict.values d → ∃ k, Dict.get d k = Some v.
Proof.
  unfold Dict.keys, Dict.values. induction d as [|[k0 v0] d IH]; csimpl.
  - intros _ Hin. by apply elem_of_nil in Hin.
  - intros [Hnotin Hd]%NoDup_cons [->|Hin]%elem_of_cons.
    + exists k0. by rewrite decide_True.
    + destruct (IH Hd Hin) as [k Hk]. exists k. rewrite decide_False; [done|].
      intros ->. apply Hnotin.
      clear -Hk. induction d as [|[k1 v1] d IH]; simpl in *; [done|].
      case_decide; subst; [by left|right; by apply IH].
Qed.

Lemma load_students_keys (fs : FileSystem) (path : string) :
  preserves (λ s, NoDup (Dict.keys (Repository._students s))) (Repository.load fs path).
Proof.
  unfold Repository.load.
  repeat (apply preserves_bind; [|intros _]); apply preserves_for_gen;
    intros record s Hs.
  - by destruct (majors_record_frame record s) as (-> & _).
  - destruct record as [|cwid [|name [|major [|? ?]]]]; try done.
    rewrite students_record_run. destruct (Dict.mem _ _); [|done].
    by apply NoDup_keys_set.
  - by destruct (instructors_record_frame record s) as (-> & _).
  - destruct (grades_record_frame record s) as (_ & _ & Hkeys & _).
    cbv zeta in Hkeys. by rewrite Hkeys.
Qed.

Lemma comprehension_raises {S A B} (Q : exn → Prop) (f : A → M S B) (l : list A) :
  (∀ a, a ∈ l → raises_only Q (f a)) →
  (∃ a, a ∈ l ∧ ∀ s, ∃ e, outcome_of (f a s) = Raise e) →
  ∀ s, ∃ e, outcome_of (comprehension f l s) = Raise e ∧ Q e.
Proof.
  induction l as [|a l IH]; intros Honly (a0 & Hin & Hraise) s.
  - by apply elem_of_nil in Hin.
  - simpl. unfold bind at 1.
    pose proof (Honly a ltac:(by left) s) as Hhead.
    destruct (f a s) as [[[b|e] s1] out1] eqn:Hrun.
    + assert (Hin' : a0 ∈ l).
      { apply elem_of_cons in Hin as [->|Hin]; [|done].
        destruct (Hraise s) as [e He]. by rewrite Hrun in He. }
      destruct (IH (λ a' Ha', Honly a' ltac:(by right))
                  (ex_intro _ a0 (conj Hin' Hraise)) s1) as (e & He & HQ).
      exists e. split; [|done]. unfold bind.
      destruct (comprehension f l s1) as [[[bs|e'] s2] out2]; [done|].
      exact He.
    + exists e. split; [done|]. by apply Hhead.
Qed.

Lemma gpa_raises {S} (self : Student.t) :
  raises_only is_unknown_grade (@Student.gpa S self).
Proof.
  intros s e. rewrite gpa_run. cbv zeta.
  destruct (first_unknown _) as [grade|] eqn:Hfirst.
  - intros [= <-]. exists grade. split; [done|].
    by apply first_unknown_Some in Hfirst as [_ ?].
  - by case_decide.
Qed.

(** With its major in the store, [info] ends as [gpa] does. *)
Lemma info_outcome `{SetOrder} {S} (majors : Dict.t Major.t) (self : Student.t) (s : S) :
  is_Some (Dict.get majors (Student._major self)) →
  ∀ e, outcome_of (Student.info majors self s) = Raise e
       ↔ outcome_of (@Student.gpa S self s) = Raise e.
Proof.
  intros [major_object Hmajor] e. unfold Student.info. rewrite Hmajor.
  destruct (Major.remaining _ _) as [[[major passed] remaining] electives].
  unfold bind, outcome_of.
  destruct (Student.gpa self s) as [[[g|e'] s'] out]; simpl.
  - split; intros Heq; discriminate Heq.
  - split; intros [= ->]; reflexivity.
Qed.

(** C2, as stated, fails: [gpa] raises [KeyError] for a grade string that
    the table lacks, here the grade Pass of the sample student. *)
Lemma gpa_unknown_grade_raises :
  ¬ (∀ self : Student.t,
       (∃ grade, grade ∈ Dict.values (Student._courses self)
                 ∧ Dict.get Student.grades grade = None) →
       ∃ g out, @Student.gpa unit self tt = (Return g, tt, out)).
Proof.
  intros Hall. destruct (Hall zed) as (g & out & Hrun).
  - exists "Pass". split; [|reflexivity].
    unfold zed, Dict.values; simpl. rewrite !elem_of_cons. auto.
  - vm_compute in Hrun. discriminate Hrun.
Qed.

(** C2, amended.  For a student with a grade string that the grade point
    table lacks, [gpa] raises the [KeyError] of the first such grade, prints
    nothing and handles nothing.  The exception passes through
    [Student.info] and the student table: when the load has completed and
    the tables are asked for, the constructor itself ends by the [KeyError]
    of an unknown grade. *)
Theorem gpa_unknown_grade_propagates `{SetOrder} :
  (∀ (S : Type) (self : Student.t) (s : S),
     (∃ grade, grade ∈ Dict.values (Student._courses self)
               ∧ Dict.get Student.grades grade = None) →
     ∃ grade,
       first_unknown (Dict.values (Student._courses self)) = Some grade
       ∧ grade ∈ Dict.values (Student._courses self)
       ∧ Dict.get Student.grades grade = None
       ∧ Student.gpa self s = (Raise (KeyError grade), s, []))
  ∧ (∀ (fs : FileSystem) (db : Database) (path : string) (self : Repository.t)
       (out : list event) (cwid : string) (student : Student.t),
       Repository.load fs path (Repository.fresh path) = (Return tt, self, out) →
       Dict.get (Repository._students self) cwid = Some student →
       (∃ grade, grade ∈ Dict.values (Student._courses student)
                 ∧ Dict.get Student.grades grade = None) →
       ∃ grade,
         outcome_of (Repository.__init__ fs db path true) = Raise (KeyError grade)
         ∧ Dict.get Student.grades grade = None
         ∧ state_of (Repository.__init__ fs db path true) = self).
Proof.
  assert (Hgpa : ∀ (S : Type) (self : Student.t) (s : S),
     (∃ grade, grade ∈ Dict.values (Student._courses self)
               ∧ Dict.get Student.grades grade = None) →
     ∃ grade,
       first_unknown (Dict.values (Student._courses self)) = Some grade
       ∧ grade ∈ Dict.values (Student._courses self)
       ∧ Dict.get Student.grades grade = None
       ∧ Student.gpa self s = (Raise (KeyError grade), s, [])).
  { intros S self s (grade0 & Hin & Hnone).
    destruct (first_unknown (Dict.values (Student._courses self))) as [grade|] eqn:Hfirst.
    - exists grade. destruct (first_unknown_Some _ _ Hfirst) as [Hin' Hnone'].
      repeat split; try done. rewrite gpa_run. cbv zeta. by rewrite Hfirst.
    - exfalso. destruct (proj1 (first_unknown_None _) Hfirst grade0 Hin) as [q Hq].
      congruence. }
  split; [exact Hgpa|].
  intros fs db path self out cwid student Hload Hstudent Hunknown.
  assert (Hstate : state_of (Repository.__init__ fs db path true) = self).
  { rewrite init_state. unfold state_of. by rewrite Hload. }
  assert (Hresolve : references_resolve self).
  { rewrite <- Hstate, init_state. apply load_resolve. by intros ? ?. }
  assert (Hkeys : NoDup (Dict.keys (Repository._students self))).
  { rewrite <- Hstate, init_state. apply load_students_keys. constructor. }
  destruct (comprehension_raises (S := Repository.t) is_unknown_grade
              (Student.info (Repository._majors self))
              (Dict.values (Repository._students self))) with (s := self)
    as (e & Hrows & grade & -> & Hnone).
  { intros student' Hin s e.
    destruct (values_get _ _ Hkeys Hin) as [key Hkey].
    rewrite (info_outcome _ _ _ (Hresolve key student' Hkey)). apply gpa_raises. }
  { exists student. split; [by eapply get_values|].
    intros s.
    destruct (Hgpa Repository.t student s Hunknown) as (grade & _ & _ & _ & Hrun).
    exists (KeyError grade).
    rewrite (info_outcome _ _ _ (Hresolve cwid student Hstudent)).
    unfold outcome_of. by rewrite Hrun. }
  exists grade. split; [|by split].
  unfold Repository.__init__, try_except_else. rewrite Hload.
  unfold Repository.reports, Repository.majors_table, Repository.student_table.
  unfold bind, print, get_self, print_table, outcome_of in *.
  destruct (comprehension _ _ self) as [[[rows|e] s'] out']; [done|].
  simpl in *. by injection Hrows as ->.
Qed.

Lemma gpa_unknown_grade_propagates_witness :
  (∃ grade, grade ∈ Dict.values (Student._courses zed)
            ∧ Dict.get Student.grades grade = None)
  ∧ @Student.gpa unit zed tt = (Raise (KeyError "Pass"), tt, []).
Proof.
  assert (Hunknown : ∃ grade, grade ∈ Dict.values (Student._courses zed)
                              ∧ Dict.get Student.grades grade = None).
  { exists "Pass". split; [|reflexivity].
    unfold zed, Dict.values; simpl. rewrite !elem_of_cons. auto. }
  split; [exact Hunknown|].
  destruct (proj1 (@gpa_unknown_grade_propagates elements_order) unit zed tt Hunknown)
    as (grade & Hfirst & _ & _ & Hrun).
  vm_compute in Hfirst. injection Hfirst as <-. exact Hrun.
Defined.

(** ** Floats and the grade point average *)

Section float.
Import PyFloat.
Local Open Scope Q_scope.

Lemma rne_error (q : Q) : Qabs (inject_Z (rne q) - q) <= 1 # 2.
Proof.
  unfold rne. pose proof (Qfloor_le q) as Hlo. pose proof (Qlt_floor q) as Hhi.
  rewrite inject_Z_plus in Hhi. change (inject_Z 1) with 1 in Hhi.
  apply Qabs_Qle_condition.
  destruct (Qcompare_spec (q - inject_Z (Qfloor q)) (1 # 2)) as [Heq|Hlt|Hgt].
  - destruct (Z.even (Qfloor q)); rewrite ?inject_Z_plus;
      change (inject_Z 1) with 1; lra.
  - lra.
  - rewrite inject_Z_plus. change (inject_Z 1) with 1. lra.
Qed.

Lemma rne_integer (q : Q) (z : Z) : q == inject_Z z → rne q = z.
Proof.
  intros Hq. unfold rne.
  assert (Hfloor : Qfloor q = z) by (by rewrite (Qfloor_comp _ _ Hq), Qfloor_Z).
  rewrite Hfloor.
  destruct (Qcompare_spec (q - inject_Z z) (1 # 2)); [lra|done|lra].
Qed.

Lemma fl_proper (x y : Q) : x == y → fl x = fl y.
Proof. intros Hxy. unfold fl. by rewrite (Qred_complete x y Hxy). Qed.

Lemma pow2_pos (e : Z) : 0 < pow2 e.
Proof. by apply Qpower_0_lt. Qed.

Lemma pow2_plus (a b : Z) : pow2 (a + b) == pow2 a * pow2 b.
Proof. by apply Qpower_plus. Qed.

Lemma pow2_nonneg (k : Z) : (0 ≤ k)%Z → pow2 k == inject_Z (2 ^ k).
Proof. intros Hk. unfold pow2. by rewrite Zpower_Qpower. Qed.

Lemma pow2_le (a b : Z) : (a ≤ b)%Z → pow2 a <= pow2 b.
Proof. intros Hab. by apply Qpower_le_compat_l. Qed.

Lemma ilog2_le (q : Q) (L : Z) :
  (0 ≤ L)%Z → Qabs q < inject_Z (2 ^ (L + 1)) → (ilog2 q ≤ L)%Z.
Proof.
  intros HL Hq. unfold ilog2.
  destruct (Qle_bool 1 (Qabs q)) eqn:Hone.
  - apply Qle_bool_iff in Hone.
    assert (Hfloor : (Qfloor (Qabs q) < 2 ^ (L + 1))%Z).
    { rewrite Zlt_Qlt. eapply Qle_lt_trans; [apply Qfloor_le|done]. }
    assert (Hpos : (0 < Qfloor (Qabs q))%Z).
    { assert (1 ≤ Qfloor (Qabs q))%Z; [|lia].
      rewrite <- (Qfloor_Z 1). by apply Qfloor_resp_le. }
    apply Z.log2_lt_pow2 in Hfloor; lia.
  - pose proof (Z.log2_up_nonneg (Qceiling (/ Qabs q))). lia.
Qed.
Lemma fl_error (x : Q) :
  Qabs (fl x - x) <= pow2 (ulp_exp (Qred x)) * (1 # 2).
Proof.
  unfold fl. pose proof (Qred_correct x) as Hq.
  pose proof (pow2_pos (ulp_exp (Qred x))) as Hp.
  set (p := pow2 (ulp_exp (Qred x))) in *. clearbody p.
  destruct (Qeq_bool (Qred x) 0) eqn:Hzero.
  - apply Qeq_bool_iff in Hzero. apply Qabs_Qle_condition. split; lra.
  - rewrite Qred_correct.
    pose proof (rne_error (Qred x / p)) as Hrne.
    apply Qabs_Qle_condition in Hrne. apply Qabs_Qle_condition.
    set (m := inject_Z (rne (Qred x / p))) in *. clearbody m.
    assert (Hdiv : Qred x / p * p == x) by (rewrite Hq; field; lra).
    split; nra.
Qed.

Lemma ulp_exp_le (q : Q) (L : Z) :
  (0 ≤ L)%Z → (-1074 ≤ L - 52)%Z → Qabs q < inject_Z (2 ^ (L + 1)) →
  (ulp_exp q ≤ L - 52)%Z.
Proof.
  intros HL Hmin Hq. unfold ulp_exp, prec, emin.
  pose proof (ilog2_le q L HL Hq). lia.
Qed.

(** A quarter of an integer below 2^53 is a binary64 number. *)
Lemma fl_quarter (x : Q) (a : Z) :
  (0 ≤ a < 2 ^ 53)%Z → x == inject_Z a * (1 # 4) → fl x == x.
Proof.
  intros Ha Hx. unfold fl. pose proof (Qred_correct x) as Hq.
  destruct (Qeq_bool (Qred x) 0) eqn:Hzero.
  - apply Qeq_bool_iff in Hzero. lra.
  - rewrite Qred_correct.
    set (e := ulp_exp (Qred x)).
    assert (He : (e ≤ -2)%Z).
    { apply (ulp_exp_le (Qred x) 50); [lia|lia|].
      rewrite Hq, Hx. apply Qabs_Qlt_condition.
      assert (inject_Z a < inject_Z (2 ^ 53)) by (rewrite <- Zlt_Qlt; lia).
      assert (0 <= inject_Z a) by (change 0 with (inject_Z 0); rewrite <- Zle_Qle; lia).
      change (inject_Z (2 ^ 53)) with (4 * inject_Z (2 ^ (50 + 1))) in *.
      generalize dependent (inject_Z (2 ^ (50 + 1))). intros. split; lra. }
    assert (Hpow : pow2 e * inject_Z (2 ^ (- e - 2)) == 1 # 4).
    { rewrite <- pow2_nonneg by lia. rewrite <- pow2_plus.
      replace (e + (- e - 2))%Z with (-2)%Z by lia. reflexivity. }
    pose proof (pow2_pos e) as Hp.
    generalize dependent (pow2 e). intros p Hpow Hp.
    assert (Hint : Qred x / p == inject_Z (a * 2 ^ (- e - 2))).
    { rewrite inject_Z_mult, Hq, Hx.
      generalize dependent (inject_Z (2 ^ (- e - 2))). intros c Hpow.
      field_simplify_eq; [|lra]. rewrite <- Hpow. ring. }
    rewrite (rne_integer _ _ Hint), inject_Z_mult, Hx.
    set (c := inject_Z (2 ^ (- e - 2))) in *. clearbody c.
    rewrite <- Qmult_assoc, (Qmult_comm c p), Hpow. reflexivity.
Qed.
Lemma grades_quarter (grade : string) (q : Q) :
  Dict.get Student.grades grade = Some q → quarter q.
Proof.
  unfold Student.grades. simpl.
  repeat (case_decide;
          [intros [= Hq]; exists (Qfloor (q * 4)); rewrite <- Hq;
           vm_compute; repeat split; intros; discriminate|]).
  done.
Qed.
Lemma points_quarter (grade_strings : list string) :
  Forall quarter (points_of grade_strings).
Proof.
  induction grade_strings as [|g rest IH]; cbn [points_of]; [constructor|].
  destruct (Dict.get Student.grades g) as [q|] eqn:Hg; [|done].
  constructor; [by eapply grades_quarter|done].
Qed.

(** The exact sum of grade points is a quarter of an integer. *)
Lemma Qsum_quarter (l : list Q) :
  Forall quarter l →
  ∃ A : Z, (0 ≤ A ≤ 16 * Z.of_nat (length l))%Z ∧ Qsum l == inject_Z A * (1 # 4).
Proof.
  induction 1 as [|x l (a & Ha & Hx) _ (A & HA & Hl)]; simpl.
  - exists 0%Z. split; [lia|reflexivity].
  - exists (a + A)%Z. split; [lia|]. rewrite inject_Z_plus, Hx, Hl. ring.
Qed.

(** The float sum of grade points is their exact sum. *)
Lemma fold_add_exact (l : list Q) (acc : Q) (A : Z) :
  Forall quarter l →
  (0 ≤ A)%Z → (A + 16 * Z.of_nat (length l) < 2 ^ 53)%Z →
  acc == inject_Z A * (1 # 4) →
  fold_left add l acc == acc + Qsum l.
Proof.
  intros Hl. revert acc A.
  induction Hl as [|x l (a & Ha & Hx) _ IH]; intros acc A HA Hbound Hacc; simpl.
  - ring.
  - assert (Hstep : add acc x == acc + x).
    { unfold add. apply (fl_quarter _ (A + a)).
      - simpl in Hbound. lia.
      - rewrite inject_Z_plus, Hacc, Hx. ring. }
    rewrite (IH (add acc x) (A + a)%Z).
    + rewrite Hstep. ring.
    + lia.
    + simpl in Hbound. lia.
    + rewrite Hstep, inject_Z_plus, Hacc, Hx. ring.
Qed.

Lemma sum_exact (l : list Q) :
  Forall quarter l → (16 * Z.of_nat (length l) < 2 ^ 53)%Z → sum l == Qsum l.
Proof.
  intros Hl Hbound. unfold sum.
  rewrite (fold_add_exact l 0 0 Hl); [ring|lia|lia|reflexivity].
Qed.

Lemma of_int_exact (n : Z) : (0 ≤ n < 2 ^ 51)%Z → of_int n == inject_Z n.
Proof.
  intros Hn. unfold of_int. apply (fl_quarter _ (4 * n)); [lia|].
  rewrite inject_Z_mult. change (inject_Z 4) with 4. ring.
Qed.
(** Rounding the mean of grade points to binary64 moves it by at most
    2^-51. *)
Lemma fl_mean_error (m : Q) :
  0 <= m → m <= 4 → Qabs (fl m - m) <= 1 # 2 ^ 51.
Proof.
  intros Hlo Hhi. eapply Qle_trans; [apply fl_error|].
  assert (He : (ulp_exp (Qred m) ≤ 2 - 52)%Z).
  { apply ulp_exp_le; [lia|lia|]. rewrite Qred_correct.
    apply Qabs_Qlt_condition. change (inject_Z (2 ^ (2 + 1))) with 8. split; lra. }
  pose proof (pow2_le _ _ He) as Hpow.
  change (pow2 (2 - 52)) with (1 # 2 ^ 50) in Hpow.
  set (p := pow2 _) in *. clearbody p.
  assert (H51 : (1 # 2 ^ 51) == (1 # 2 ^ 50) * (1 # 2)) by reflexivity.
  rewrite H51. lra.
Qed.

(** The integer nearest to a hundred times the rounded mean is an integer
    nearest to a hundred times the mean itself. *)
Lemma nearest_hundredth (A n k : Z) (m t : Q) :
  (0 < n < 2 ^ 32)%Z →
  m * inject_Z n == inject_Z A * (1 # 4) →
  Qabs (t - m) <= 1 # 2 ^ 51 →
  Qabs (inject_Z k - t * 100) <= 1 # 2 →
  Qabs (inject_Z k * (1 # 100) - m) <= 1 # 200.
Proof.
  intros Hn Hm Ht Hk.
  apply Qabs_Qle_condition in Ht, Hk. apply Qabs_Qle_condition.
  assert (Hnq : 1 <= inject_Z n ∧ inject_Z n < inject_Z (2 ^ 32)).
  { change 1 with (inject_Z 1). rewrite <- Zle_Qle, <- Zlt_Qlt. lia. }
  change (inject_Z (2 ^ 32)) with 4294967296 in Hnq.
  set (D := (k * n - 25 * A)%Z).
  assert (HD : inject_Z D == inject_Z k * inject_Z n - 25 * inject_Z A).
  { unfold D. unfold Zminus. rewrite inject_Z_plus, inject_Z_opp, !inject_Z_mult.
    change (inject_Z 25) with 25. ring. }
  assert (H51 : (1 # 2 ^ 51) == 1 # 2251799813685248) by reflexivity.
  rewrite H51 in Ht.
  assert (Hbound : (- n ≤ 2 * D ≤ n)%Z).
  { assert (Hq : inject_Z (- (n + 1)) < inject_Z (2 * D)
                 ∧ inject_Z (2 * D) < inject_Z (n + 1)).
    { rewrite inject_Z_opp, !inject_Z_plus, inject_Z_mult, HD.
      change (inject_Z 1) with 1. change (inject_Z 2) with 2.
      set (nq := inject_Z n) in *. set (kq := inject_Z k) in *.
      set (Aq := inject_Z A) in *. clearbody nq kq Aq.
      split; nra. }
    rewrite <- !Zlt_Qlt in Hq. lia. }
  assert (HboundQ : - inject_Z n <= 2 * inject_Z D ∧ 2 * inject_Z D <= inject_Z n).
  { change 2 with (inject_Z 2). rewrite <- inject_Z_mult, <- inject_Z_opp, <- !Zle_Qle.
    lia. }
  rewrite HD in HboundQ.
  set (nq := inject_Z n) in *. set (kq := inject_Z k) in *.
  set (Aq := inject_Z A) in *. clearbody nq kq Aq.
  split; nra.
Qed.
(** C5. For a student with at least one course, all of whose grades are in
    the grade point table, [gpa] returns the binary64 number nearest to
    k/100 for an integer k with k/100 a nearest two-decimal number to the
    arithmetic mean of the points of all the recorded courses: the mean
    rounded to 2 decimal places.  (The number of courses is taken below
    2^32.) *)
Theorem gpa_mean {S : Type} (self : Student.t) (s : S) :
  let grade_strings := Dict.values (Student._courses self) in
  grade_strings ≠ [] →
  (∀ grade, grade ∈ grade_strings → is_Some (Dict.get Student.grades grade)) →
  (Z.of_nat (length grade_strings) < 2 ^ 32)%Z →
  ∃ k : Z,
    Student.gpa self s = (Return (Some (fl (inject_Z k / 100))), s, [])
    ∧ Qabs (inject_Z k / 100 - mean (points_of grade_strings)) <= 1 # 200
    ∧ length (points_of grade_strings) = length grade_strings.
Proof.
  intros gs Hne Hknown Hlen.
  apply first_unknown_None in Hknown.
  pose proof (length_points_of gs Hknown) as Hpoints.
  assert (Hn : (0 < Z.of_nat (length gs))%Z) by (destruct gs; [done|simpl; lia]).
  set (n := Z.of_nat (length gs)) in *.
  destruct (Qsum_quarter _ (points_quarter gs)) as (A & HA & Hsum).
  rewrite Hpoints in HA. fold n in HA.
  assert (Hnq : 1 <= inject_Z n).
  { change 1 with (inject_Z 1). rewrite <- Zle_Qle. lia. }
  assert (Hmean : mean (points_of gs) * inject_Z n == inject_Z A * (1 # 4)).
  { unfold mean. rewrite Hpoints. fold n. rewrite Hsum. field. lra. }
  assert (HAq : 0 <= inject_Z A ∧ inject_Z A <= 16 * inject_Z n).
  { change 0 with (inject_Z 0). change 16 with (inject_Z 16).
    rewrite <- inject_Z_mult, <- !Zle_Qle. lia. }
  assert (Hrange : 0 <= mean (points_of gs) ∧ mean (points_of gs) <= 4).
  { set (m := mean _) in *. set (nq := inject_Z n) in *. set (Aq := inject_Z A) in *.
    clearbody m nq Aq. split; nra. }
  assert (Htotal : div (sum (points_of gs)) (of_int n) = fl (mean (points_of gs))).
  { unfold div. apply fl_proper. unfold mean. rewrite Hpoints. fold n.
    rewrite sum_exact, of_int_exact; [reflexivity|lia| |rewrite Hpoints; fold n; lia].
    apply points_quarter. }
  exists (rne (fl (mean (points_of gs)) * 100)).
  split; [|split; [|done]].
  - rewrite gpa_run. cbv zeta. fold gs. rewrite Hknown.
    destruct (decide (length gs = 0%nat)) as [Hzero|_]; [lia|].
    fold n. by rewrite Htotal.
  - change (inject_Z (rne (fl (mean (points_of gs)) * 100)) / 100)
      with (inject_Z (rne (fl (mean (points_of gs)) * 100)) * (1 # 100)).
    apply (nearest_hundredth A n _ _ (fl (mean (points_of gs)))); [lia|exact Hmean| |].
    + apply fl_mean_error; apply Hrange.
    + apply rne_error.
Qed.
End float.

Lemma gpa_mean_witness :
  @Student.gpa unit two_As tt = (Return (Some 4%Q), tt, [])
  ∧ @Student.gpa unit an_A_and_a_C tt = (Return (Some 3%Q), tt, [])
  ∧ ∃ k : Z,
      @Student.gpa unit amy tt
      = (Return (Some (PyFloat.fl (inject_Z k / 100)%Q)), tt, [])
      ∧ (Qabs (inject_Z k / 100 - mean (points_of (Dict.values (Student._courses amy))))
         <= 1 # 200)%Q
      ∧ length (points_of (Dict.values (Student._courses amy)))
        = length (Dict.values (Student._courses amy)).
Proof.
  split; [vm_compute; reflexivity|]. split; [vm_compute; reflexivity|].
  apply (@gpa_mean unit amy tt).
  - discriminate.
  - intros grade Hin. simpl in Hin. apply elem_of_cons in Hin as [->|Hin].
    + by eexists.
    + by apply elem_of_nil in Hin.
  - simpl. lia.
Defined.

(** ** Major.remaining as a query *)

Lemma lookup_new (h : Heap.t) (o : Heap.object) : (h ++ [o]) !! length h = Some o.
Proof. by apply list_lookup_middle. Qed.

Lemma lookup_old (h ext : Heap.t) (a : nat) (o : Heap.object) :
  h !! a = Some o → (h ++ ext) !! a = Some o.
Proof. apply lookup_app_l_Some. Qed.

Lemma remaining_run `{SetOrder} (h : Heap.t) (self completed major required electives : nat)
    (R E : gset string) (d : Dict.t string) :
  h !! self = Some (Heap.OMajor major required electives) →
  h !! required = Some (Heap.OSet R) →
  h !! electives = Some (Heap.OSet E) →
  h !! completed = Some (Heap.ODict d) →
  ∃ l1 l2 l3 ext passed remaining owed,
    Heap.remaining self completed h = Some ((major, l1, l2, l3), h ++ ext)
    ∧ (h ++ ext) !! l1 = Some (Heap.OList passed)
    ∧ (h ++ ext) !! l2 = Some (Heap.OList remaining)
    ∧ (h ++ ext) !! l3 = Some (Heap.OList owed)
    ∧ ∀ name,
        Major.remaining {| Major._major := name; Major._required := R;
                           Major._electives := E |} d
        = (name, passed, remaining, owed).
Proof.
  intros Hself Hrequired Helectives Hcompleted.
  unfold Heap.remaining, Heap.hbind, Heap.read_major, Heap.read_dict.
  rewrite Hself, Hcompleted. unfold Heap.new at 1.
  set (P := list_to_set _ : gset string).
  set (h1 := h ++ [Heap.OSet P]).
  assert (Hpassed1 : h1 !! length h = Some (Heap.OSet P)) by apply lookup_new.
  assert (Hrequired1 : h1 !! required = Some (Heap.OSet R))
    by apply lookup_old, Hrequired.
  assert (Helectives1 : h1 !! electives = Some (Heap.OSet E))
    by apply lookup_old, Helectives.
  unfold Heap.read_set at 1. rewrite Hrequired1.
  unfold Heap.read_set at 1. rewrite Hpassed1.
  unfold Heap.new at 1.
  set (h2 := h1 ++ [Heap.OSet (R ∖ P)]).
  assert (Hpassed2 : h2 !! length h = Some (Heap.OSet P))
    by apply lookup_old, Hpassed1.
  assert (Helectives2 : h2 !! electives = Some (Heap.OSet E))
    by apply lookup_old, Helectives1.
  unfold Heap.read_set at 1. rewrite Helectives2.
  unfold Heap.read_set at 1. rewrite Hpassed2.
  unfold Heap.new at 1.
  set (h3 := h2 ++ [Heap.OSet (E ∩ P)]).
  assert (Hcommon3 : h3 !! length h2 = Some (Heap.OSet (E ∩ P))) by apply lookup_new.
  assert (Hpassed3 : h3 !! length h = Some (Heap.OSet P))
    by apply lookup_old, Hpassed2.
  assert (Hremaining3 : h3 !! length h1 = Some (Heap.OSet (R ∖ P)))
    by apply lookup_old, lookup_new.
  assert (Helectives3 : h3 !! electives = Some (Heap.OSet E))
    by apply lookup_old, Helectives2.
  unfold Heap.read_set at 1. rewrite Hcommon3.
  unfold Major.remaining. cbv zeta. simpl list_of. fold P.
  assert (Hext3 : h3 = h ++ [Heap.OSet P; Heap.OSet (R ∖ P); Heap.OSet (E ∩ P)]).
  { unfold h3, h2, h1. by rewrite <- !app_assoc. }
  destruct (decide (E ∩ P ≠ ∅)) as [Hcommon|Hcommon].
  - unfold Heap.new at 1.
    set (h4 := h3 ++ [Heap.OList []]).
    assert (Hpassed4 : h4 !! length h = Some (Heap.OSet P))
      by apply lookup_old, Hpassed3.
    assert (Hremaining4 : h4 !! length h1 = Some (Heap.OSet (R ∖ P)))
      by apply lookup_old, Hremaining3.
    unfold Heap.list_ at 1. rewrite Hpassed4.
    unfold Heap.new at 1. set (h5 := h4 ++ [Heap.OList (set_to_list P)]).
    assert (Hremaining5 : h5 !! length h1 = Some (Heap.OSet (R ∖ P)))
      by apply lookup_old, Hremaining4.
    assert (Howed5 : h5 !! length h3 = Some (Heap.OList []))
      by apply lookup_old, lookup_new.
    unfold Heap.list_ at 1. rewrite Hremaining5.
    unfold Heap.new at 1. set (h6 := h5 ++ [Heap.OList (set_to_list (R ∖ P))]).
    assert (Howed6 : h6 !! length h3 = Some (Heap.OList []))
      by apply lookup_old, Howed5.
    unfold Heap.list_ at 1. rewrite Howed6.
    unfold Heap.new, Heap.hret.
    set (h7 := h6 ++ [Heap.OList []]).
    exists (length h4), (length h5), (length h6),
      [Heap.OSet P; Heap.OSet (R ∖ P); Heap.OSet (E ∩ P); Heap.OList [];
       Heap.OList (set_to_list P); Heap.OList (set_to_list (R ∖ P)); Heap.OList []],
      (set_to_list P), (set_to_list (R ∖ P)), [].
    assert (Hext7 : h7 = h ++ [Heap.OSet P; Heap.OSet (R ∖ P); Heap.OSet (E ∩ P);
                              Heap.OList []; Heap.OList (set_to_list P);
                              Heap.OList (set_to_list (R ∖ P)); Heap.OList []]).
    { unfold h7, h6, h5, h4. rewrite Hext3. by rewrite <- !app_assoc. }
    rewrite <- Hext7.
    split; [done|]. split; [apply lookup_old, lookup_old, lookup_new|].
    split; [apply lookup_old, lookup_new|]. split; [apply lookup_new|done].
  - unfold Heap.hret at 1.
    unfold Heap.list_ at 1. rewrite Hpassed3.
    unfold Heap.new at 1. set (h5 := h3 ++ [Heap.OList (set_to_list P)]).
    assert (Hremaining5 : h5 !! length h1 = Some (Heap.OSet (R ∖ P)))
      by apply lookup_old, Hremaining3.
    assert (Helectives5 : h5 !! electives = Some (Heap.OSet E))
      by apply lookup_old, Helectives3.
    unfold Heap.list_ at 1. rewrite Hremaining5.
    unfold Heap.new at 1. set (h6 := h5 ++ [Heap.OList (set_to_list (R ∖ P))]).
    assert (Helectives6 : h6 !! electives = Some (Heap.OSet E))
      by apply lookup_old, Helectives5.
    unfold Heap.list_ at 1. rewrite Helectives6.
    unfold Heap.new, Heap.hret.
    set (h7 := h6 ++ [Heap.OList (set_to_list E)]).
    exists (length h3), (length h5), (length h6),
      [Heap.OSet P; Heap.OSet (R ∖ P); Heap.OSet (E ∩ P);
       Heap.OList (set_to_list P); Heap.OList (set_to_list (R ∖ P));
       Heap.OList (set_to_list E)],
      (set_to_list P), (set_to_list (R ∖ P)), (set_to_list E).
    assert (Hext7 : h7 = h ++ [Heap.OSet P; Heap.OSet (R ∖ P); Heap.OSet (E ∩ P);
                              Heap.OList (set_to_list P);
                              Heap.OList (set_to_list (R ∖ P));
                              Heap.OList (set_to_list E)]).
    { unfold h7, h6, h5. rewrite Hext3. by rewrite <- !app_assoc. }
    rewrite <- Hext7.
    split; [done|]. split; [apply lookup_old, lookup_old, lookup_new|].
    split; [apply lookup_old, lookup_new|]. split; [apply lookup_new|done].
Qed.

(** C10. [Major.remaining] run on a heap only adds objects: the major, its
    name, its two sets and the mapping passed in are afterwards what they
    were, like every other object of the heap.  The lists it returns hold
    the values of the function [Major.remaining], and a second call with the
    same arguments returns lists with the same values. *)
Theorem remaining_is_pure `{SetOrder} (h : Heap.t)
    (self completed major required electives : nat) (name : string)
    (R E : gset string) (d : Dict.t string) :
  h !! self = Some (Heap.OMajor major required electives) →
  h !! major = Some (Heap.OStr name) →
  h !! required = Some (Heap.OSet R) →
  h !! electives = Some (Heap.OSet E) →
  h !! completed = Some (Heap.ODict d) →
  ∃ l1 l2 l3 h' passed remaining owed,
    Heap.remaining self completed h = Some ((major, l1, l2, l3), h')
    ∧ (∀ a o, h !! a = Some o → h' !! a = Some o)
    ∧ h' !! l1 = Some (Heap.OList passed)
    ∧ h' !! l2 = Some (Heap.OList remaining)
    ∧ h' !! l3 = Some (Heap.OList owed)
    ∧ Major.remaining {| Major._major := name; Major._required := R;
                         Major._electives := E |} d
      = (name, passed, remaining, owed)
    ∧ ∃ l1' l2' l3' h'',
        Heap.remaining self completed h' = Some ((major, l1', l2', l3'), h'')
        ∧ (∀ a o, h' !! a = Some o → h'' !! a = Some o)
        ∧ h'' !! l1' = Some (Heap.OList passed)
        ∧ h'' !! l2' = Some (Heap.OList remaining)
        ∧ h'' !! l3' = Some (Heap.OList owed).
Proof.
  intros Hself Hmajor Hrequired Helectives Hcompleted.
  destruct (remaining_run h self completed major required electives R E d
              Hself Hrequired Helectives Hcompleted)
    as (l1 & l2 & l3 & ext & passed & remaining & owed
        & Hrun & Hl1 & Hl2 & Hl3 & Hvalue).
  destruct (remaining_run (h ++ ext) self completed major required electives R E d
              (lookup_old _ _ _ _ Hself) (lookup_old _ _ _ _ Hrequired)
              (lookup_old _ _ _ _ Helectives) (lookup_old _ _ _ _ Hcompleted))
    as (l1' & l2' & l3' & ext' & passed' & remaining' & owed'
        & Hrun' & Hl1' & Hl2' & Hl3' & Hvalue').
  specialize (Hvalue name). specialize (Hvalue' name).
  rewrite Hvalue in Hvalue'. injection Hvalue' as <- <- <-.
  exists l1, l2, l3, (h ++ ext), passed, remaining, owed.
  split; [done|]. split; [intros a o; apply lookup_old|].
  do 4 (split; [done|]).
  exists l1', l2', l3', ((h ++ ext) ++ ext').
  split; [done|]. split; [intros a o; apply lookup_old|]. done.
Qed.

Lemma remaining_is_pure_witness :
  ∃ l1 l2 l3 h' passed remaining owed,
    @Heap.remaining elements_order 3 4 sample_heap = Some ((0%nat, l1, l2, l3), h')
    ∧ (∀ a o, sample_heap !! a = Some o → h' !! a = Some o)
    ∧ h' !! l1 = Some (Heap.OList passed)
    ∧ h' !! l2 = Some (Heap.OList remaining)
    ∧ h' !! l3 = Some (Heap.OList owed)
    ∧ @Major.remaining elements_order
        {| Major._major := "CS"; Major._required := {["CS101"; "CS102"]};
           Major._electives := {["CS200"]} |} [("CS101", "B+")]
      = ("CS", passed, remaining, owed)
    ∧ ∃ l1' l2' l3' h'',
        @Heap.remaining elements_order 3 4 h' = Some ((0%nat, l1', l2', l3'), h'')
        ∧ (∀ a o, h' !! a = Some o → h'' !! a = Some o)
        ∧ h'' !! l1' = Some (Heap.OList passed)
        ∧ h'' !! l2' = Some (Heap.OList remaining)
        ∧ h'' !! l3' = Some (Heap.OList owed).
Proof.
  exact (@remaining_is_pure elements_order sample_heap 3 4 0 1 2 "CS"
           {["CS101"; "CS102"]} {["CS200"]} [("CS101", "B+")]
           eq_refl eq_refl eq_refl eq_refl eq_refl).
Defined.

(** ** Further properties *)

(** X1. A student without recorded courses has no GPA: [gpa] catches the
    division by zero, prints its message and returns [None]. *)
Theorem gpa_no_courses {S : Type} (self : Student.t) (s : S) :
  Student._courses self = [] →
  Student.gpa self s = (Return None, s, [Print "division by zero"]).
Proof. intros Hnone. rewrite gpa_run. by rewrite Hnone. Qed.

Lemma gpa_no_courses_witness :
  Student._courses (Student.__init__ "2" "Bob" "CS") = []
  ∧ @Student.gpa unit (Student.__init__ "2" "Bob" "CS") tt
    = (Return None, tt, [Print "division by zero"]).
Proof.
  split; [reflexivity|].
  exact (@gpa_no_courses unit (Student.__init__ "2" "Bob" "CS") tt eq_refl).
Defined.

(** X2. A grade record whose student the store knows and whose instructor
    it does not know records the grade in the student's courses, prints the
    diagnostic for the instructor and raises nothing. *)
Theorem grade_record_unknown_instructor (self : Repository.t)
    (std_cwid course grade instructor_cwid : string) (student : Student.t) :
  Dict.get (Repository._students self) std_cwid = Some student →
  Dict.get (Repository._instructors self) instructor_cwid = None →
  Repository.grades_record [std_cwid; course; grade; instructor_cwid] self
  = (Return tt,
     Repository.set_students
       (λ d, Dict.set d std_cwid
               {| Student._cwid := Student._cwid student;
                  Student._name := Student._name student;
                  Student._major := Student._major student;
                  Student._courses :=
                    Dict.set (Student._courses student) course grade |})
       self,
     [Print ("Grades for instructor is " +:+ instructor_cwid)]).
Proof.
  intros Hstudent Hinstructor. rewrite grades_record_run.
  unfold grade_students, grade_instructors. rewrite Hstudent, Hinstructor.
  rewrite (proj2 (mem_true std_cwid _) (mk_is_Some _ _ Hstudent)).
  rewrite (proj2 (mem_false instructor_cwid _) Hinstructor).
  by destruct self.
Qed.

Lemma grade_record_unknown_instructor_witness :
  Repository.grades_record ["1"; "CS102"; "A"; "8"]
    {| Repository._path := "HW11"; Repository._students := [("1", amy)];
       Repository._instructors := [("9", kay)]; Repository._majors := [] |}
  = (Return tt,
     {| Repository._path := "HW11";
        Repository._students :=
          [("1", {| Student._cwid := "1"; Student._name := "Amy";
                    Student._major := "CS";
                    Student._courses := [("CS101", "B+"); ("CS102", "A")] |})];
        Repository._instructors := [("9", kay)]; Repository._majors := [] |},
     [Print "Grades for instructor is 8"]).
Proof.
  exact (grade_record_unknown_instructor
           {| Repository._path := "HW11"; Repository._students := [("1", amy)];
              Repository._instructors := [("9", kay)]; Repository._majors := [] |}
           "1" "CS102" "A" "8" amy eq_refl eq_refl).
Defined.

(** The sample university from end to end: the constructor prints the
    two diagnostics of the load and the four tables; the row of the student
    Amy shows CS101 passed, nothing required left, the elective CS200 owed
    and a GPA of 3.25. *)
Theorem sample_end_to_end :
  output_of (@Repository.__init__ elements_order sample_fs no_database "HW11" true)
  = [Print "Student 2 'Bob' has unknown major 'EE'";
     Print "Grades for student is 7";
     Print (nl +:+ "Majors Table");
     PrintTable Major.FIELD_NAMES [[CStr "CS"; CList ["CS101"]; CList ["CS200"]]];
     Print (nl +:+ "Student Table ");
     PrintTable Student.FIELD_NAMES
       [[CStr "1"; CStr "Amy"; CStr "CS"; CList ["CS101"]; CList [];
         CList ["CS200"]; CFloat (13 # 4)]];
     Print (nl +:+ "Instructor Table ");
     PrintTable Instructor.FIELD_NAMES
       [[CStr "9"; CStr "Kay"; CStr "CS"; CStr "CS101"; CInt 2]];
     Print (nl +:+ "Student Grade Summary");
     PrintTable ["Name"; "CWID"; "Course"; "Grade"; "Instructor"] []].
Proof. vm_compute. reflexivity. Qed.

(** ** Loops that run to the end of the reader *)

Lemma for_gen_returns {S A} (g : gen A) (body : A → M S unit) :
  (∀ a s, a ∈ yielded g → outcome_of (body a s) = Return tt) →
  ∀ s, outcome_of (for_gen g body s) = end_of g
       ∧ state_of (for_gen g body s) = foldl (step body) s (yielded g).
Proof.
  intros Hbody. induction g as [|a rest IH|e]; intros s; simpl in *.
  - done.
  - unfold bind, step at 2.
    pose proof (Hbody a s ltac:(by left)) as Ha.
    destruct (body a s) as [[[[]|e] s1] out1]; [|done].
    destruct (IH (λ a' s' Hin, Hbody a' s' ltac:(by right)) s1) as [Hout Hstate].
    unfold outcome_of, state_of in *. simpl.
    destruct (for_gen rest body s1) as [[r s2] out2]. simpl in *. by subst.
  - done.
Qed.

Lemma students_record_returns (record : list string) (s : Repository.t) :
  well_formed 3 record → outcome_of (Repository.students_record record s) = Return tt.
Proof.
  destruct record as [|cwid [|name [|major [|]]]]; try done. intros _.
  rewrite students_record_run. by destruct (Dict.mem _ _).
Qed.

Lemma instructors_record_returns (record : list string) (s : Repository.t) :
  well_formed 3 record → outcome_of (Repository.instructors_record record s) = Return tt.
Proof. by destruct record as [|cwid [|name [|dept [|]]]]. Qed.

Lemma grades_record_returns (record : list string) (s : Repository.t) :
  well_formed 4 record → outcome_of (Repository.grades_record record s) = Return tt.
Proof.
  destruct record as [|a [|b [|c [|d [|]]]]]; try done. intros _.
  by rewrite grades_record_run.
Qed.

Lemma reader_loop_returns {S} (fs : FileSystem) (path : string) (fields : nat)
    (body : list string → M S unit) :
  (∀ record s, well_formed fields record → outcome_of (body record s) = Return tt) →
  ∀ s, outcome_of (for_gen (file_reader fs path fields tab true) body s)
       = end_of (file_reader fs path fields tab true)
       ∧ state_of (for_gen (file_reader fs path fields tab true) body s)
         = foldl (step body) s (yielded (file_reader fs path fields tab true)).
Proof.
  intros Hbody. apply for_gen_returns. intros record s Hin. apply Hbody.
  pose proof (yielded_file_reader fs path fields tab true) as Hwf.
  rewrite Forall_forall in Hwf. by apply Hwf.
Qed.

(** X3. The loops over students, instructors and grades never stop on a
    record: from any object they end as the reader of their file ends,
    normally when it reaches the end of the file and with its exception
    otherwise, whatever majors, students or instructors the records name. *)
Theorem loaders_end_as_reader (fs : FileSystem) (path : string) (self : Repository.t) :
  outcome_of (Repository._get_students fs path self)
    = end_of (file_reader fs path 3 tab true)
  ∧ outcome_of (Repository._get_instructors fs path self)
    = end_of (file_reader fs path 3 tab true)
  ∧ outcome_of (Repository._get_grades fs path self)
    = end_of (file_reader fs path 4 tab true).
Proof.
  split_and!.
  - apply (reader_loop_returns fs path 3 _ students_record_returns).
  - apply (reader_loop_returns fs path 3 _ instructors_record_returns).
  - apply (reader_loop_returns fs path 4 _ grades_record_returns).
Qed.

(** ** The constructor without reports *)


(** X5. When the majors file is missing the constructor prints the
    reader's message and stops there: it returns normally, reads no other
    file and leaves the three dictionaries empty. *)
Theorem missing_majors_file `{SetOrder} (fs : FileSystem) (db : Database)
    (path : string) (tables : bool) :
  fs !! path_join path "majors.txt" = None →
  Repository.__init__ fs db path tables
  = (Return tt, Repository.fresh path,
     [Print "File is not present on the provided path"]).
Proof.
  intros Hmissing.
  unfold Repository.__init__, try_except_else, Repository.load,
    Repository._get_majors, file_reader.
  unfold bind at 1. by rewrite Hmissing.
Qed.

Lemma missing_majors_file_witness :
  (∅ : FileSystem) !! path_join "HW11" "majors.txt" = None
  ∧ @Repository.__init__ elements_order ∅ no_database "HW11" true
    = (Return tt, Repository.fresh "HW11",
       [Print "File is not present on the provided path"]).
Proof.
  split; [done|]. by apply (@missing_majors_file elements_order).
Defined.

(** ** The majors file *)

Lemma set_set {V} (d : Dict.t V) (k : string) (v v' : V) :
  Dict.set (Dict.set d k v) k v' = Dict.set d k v'.
Proof.
  induction d as [|[k0 v0] d IH]; simpl.
  - by rewrite decide_True.
  - destruct (decide (k0 = k)) as [->|Hne]; simpl.
    + by rewrite decide_True.
    + rewrite decide_False by done. by rewrite IH.
Qed.

Lemma add_course_outcome (course flag : string) (obj : Major.t) :
  outcome_of (Major.add_course course flag obj)
  = if decide (flag = "R") then Return tt
    else if decide (flag = "E") then Return tt
    else Raise (ValueError "Course Flag not Valid").
Proof. unfold Major.add_course. by repeat case_decide. Qed.

Lemma add_course_output (course flag : string) (obj : Major.t) :
  output_of (Major.add_course course flag obj) = [].
Proof. unfold Major.add_course. by repeat case_decide. Qed.

Lemma majors_record_run (major flag course : string) (s : Repository.t) :
  Repository.majors_record [major; flag; course] s
  = (outcome_of (Major.add_course course flag (Major.__init__ major)),
     Repository.set_majors (majors_step major flag course) s, []).
Proof.
  unfold Repository.majors_record, majors_step, Repository.on_major, on_object, bind,
    get_self, modify_self, ret.
  destruct (Dict.mem major (Repository._majors s)) eqn:Hmem; simpl.
  - apply mem_true in Hmem as [obj Hobj]. unfold Repository.set_majors. simpl.
    rewrite Hobj. simpl.
    pose proof (add_course_outcome course flag obj) as Hr.
    pose proof (add_course_output course flag obj) as Ho.
    rewrite (add_course_outcome course flag (Major.__init__ major)), <- Hr.
    destruct (Major.add_course course flag obj) as [[r obj'] out].
    unfold output_of, outcome_of, state_of in *. simpl in *. by subst.
  - apply mem_false in Hmem. unfold Repository.set_majors. simpl.
    rewrite Hmem, get_set_eq. simpl.
    pose proof (add_course_output course flag (Major.__init__ major)) as Ho.
    destruct (Major.add_course course flag (Major.__init__ major)) as [[r obj'] out].
    unfold output_of, outcome_of, state_of in *. simpl in *.
    subst. by rewrite set_set.
Qed.

Lemma add_course_invalid (course flag : string) (obj : Major.t) :
  flag ≠ "R" → flag ≠ "E" →
  Major.add_course course flag obj = (Raise (ValueError "Course Flag not Valid"), obj, []).
Proof. intros. unfold Major.add_course. by rewrite !decide_False. Qed.

Lemma majors_step_record_other (d : Dict.t Major.t) (record : list string) (major : string) :
  record !! 0%nat ≠ Some major →
  Dict.get (majors_step_record d record) major = Dict.get d major.
Proof.
  destruct record as [|m [|flag [|course [|]]]]; try done. simpl. intros Hne.
  unfold majors_step. rewrite get_set, decide_False; [done|]. by intros ->.
Qed.

Lemma majors_steps_other (records : list (list string)) (d : Dict.t Major.t)
    (major : string) :
  Forall (λ record, record !! 0%nat ≠ Some major) records →
  Dict.get (foldl majors_step_record d records) major = Dict.get d major.
Proof.
  revert d. induction records as [|record records IH]; intros d Hne; simpl; [done|].
  apply Forall_cons in Hne as [Hrecord Hrecords].
  by rewrite IH, majors_step_record_other.
Qed.

Lemma read_rows_yield (path : string) (fields : nat) (line : list string)
    (rest : list (list string)) (line_num : nat) :
  well_formed fields line →
  read_rows path fields (line :: rest) line_num false
  = Yield line (read_rows path fields rest (S line_num) false).
Proof. intros Hwf. simpl. by rewrite decide_False by (by intros Hlen). Qed.

(** The loop of [_get_majors] over rows that hold a record with an invalid
    flag: the rows before it are processed, the record stops the loop. *)
Lemma majors_loop_invalid_flag (path : string) (pre post : list (list string))
    (major flag course : string) (line_num : nat) (s : Repository.t) :
  Forall (λ record, well_formed 3 record ∧ valid_flag record) pre →
  flag ≠ "R" → flag ≠ "E" →
  for_gen (read_rows path 3 (pre ++ [major; flag; course] :: post) line_num false)
    Repository.majors_record s
  = (Raise (ValueError "Course Flag not Valid"),
     Repository.set_majors
       (λ d, majors_step major flag course (foldl majors_step_record d pre)) s,
     []).
Proof.
  intros Hpre HR HE. revert line_num s.
  induction pre as [|record pre IH]; intros line_num s.
  - rewrite app_nil_l, read_rows_yield by done. cbn [for_gen].
    unfold bind. rewrite majors_record_run, add_course_outcome, !decide_False by done.
    done.
  - apply Forall_cons in Hpre as [[Hwf Hflag] Hpre].
    rewrite <- app_comm_cons, read_rows_yield by done. cbn [for_gen].
    destruct record as [|m [|f [|c [|]]]]; try done.
    unfold bind at 1. rewrite majors_record_run, add_course_outcome.
    assert (f = "R" ∨ f = "E") as Hf.
    { destruct Hflag as [Hflag|Hflag]; simpl in Hflag; naive_solver. }
    rewrite (IH Hpre).
    destruct s as [p st ins mj]. unfold Repository.set_majors. simpl.
    by destruct Hf as [->| ->].
Qed.

(** X6. A majors record whose flag is neither R nor E ends the loading:
    the constructor prints "Course Flag not Valid" and nothing else, reads
    no line after the record and no other file, and returns normally.  The
    major of the record is in the dictionary all the same, as an empty
    major when no earlier record named it. *)
Theorem invalid_course_flag `{SetOrder} (fs : FileSystem) (db : Database)
    (path : string) (tables : bool) (f : file) (header : list string)
    (pre post : list (list string)) (major flag course : string) :
  fs !! path_join path "majors.txt" = Some f →
  csv_reader f tab = header :: pre ++ [major; flag; course] :: post →
  well_formed 3 header →
  Forall (λ record, well_formed 3 record ∧ valid_flag record) pre →
  flag ≠ "R" → flag ≠ "E" →
  let self := state_of (Repository.__init__ fs db path tables) in
  outcome_of (Repository.__init__ fs db path tables) = Return tt
  ∧ output_of (Repository.__init__ fs db path tables) = [Print "Course Flag not Valid"]
  ∧ is_Some (Dict.get (Repository._majors self) major)
  ∧ (Forall (λ record, record !! 0%nat ≠ Some major) pre →
     Dict.get (Repository._majors self) major = Some (Major.__init__ major))
  ∧ Repository._students self = []
  ∧ Repository._instructors self = [].
Proof.
  intros Hfile Hrows Hheader Hpre HR HE.
  assert (Repository.__init__ fs db path tables
          = (Return tt,
             Repository.set_majors
               (λ d, majors_step major flag course (foldl majors_step_record d pre))
               (Repository.fresh path),
             [Print "Course Flag not Valid"])) as ->.
  { unfold Repository.__init__, try_except_else, Repository.load, Repository._get_majors.
    unfold bind at 1. unfold file_reader. rewrite Hfile, Hrows.
    rewrite read_rows_header by done.
    by rewrite (majors_loop_invalid_flag _ pre post major flag course 1 _ Hpre HR HE). }
  unfold state_of, outcome_of, output_of. cbn [fst snd].
  unfold Repository.set_majors, Repository.fresh.
  cbn [Repository._majors Repository._students Repository._instructors].
  split_and!; try done.
  - unfold majors_step. rewrite get_set_eq. by eexists.
  - intros Hnew. unfold majors_step.
    rewrite get_set_eq, (majors_steps_other pre Dict.empty major Hnew). simpl.
    by rewrite add_course_invalid.
Qed.

Lemma invalid_course_flag_witness :
  let fs : FileSystem := <["HW11/majors.txt" := bad_flag_majors_txt]> sample_fs in
  outcome_of (@Repository.__init__ elements_order fs no_database "HW11" true) = Return tt
  ∧ output_of (@Repository.__init__ elements_order fs no_database "HW11" true)
    = [Print "Course Flag not Valid"]
  ∧ Dict.get
      (Repository._majors
         (state_of (@Repository.__init__ elements_order fs no_database "HW11" true)))
      "EE" = Some (Major.__init__ "EE").
Proof.
  intros fs.
  destruct (@invalid_course_flag elements_order fs no_database "HW11" true
              bad_flag_majors_txt ["Major"; "Required/Elective"; "Course"]
              [["CS"; "R"; "CS101"]] [["CS"]] "EE" "X" "EE100")
    as (Hreturn & Hprinted & _ & Hempty & _).
  - reflexivity.
  - reflexivity.
  - reflexivity.
  - repeat constructor.
  - discriminate.
  - discriminate.
  - split_and!; [exact Hreturn | exact Hprinted |].
    apply Hempty. by repeat constructor.
Defined.

Lemma for_gen_Return {S A} (g : gen A) (body : A → M S unit) :
  (∀ a s s', outcome_of (body a s) = outcome_of (body a s')) →
  ∀ s, outcome_of (for_gen g body s) = Return tt →
       thrown g = None
       ∧ Forall (λ a, ∀ s', outcome_of (body a s') = Return tt) (yielded g)
       ∧ state_of (for_gen g body s) = foldl (step body) s (yielded g).
Proof.
  intros Hbody. induction g as [|a rest IH|e]; intros s; simpl.
  - done.
  - unfold bind, step at 2. pose proof (Hbody a s) as Ha.
    destruct (body a s) as [[[[]|e] s1] out1] eqn:Hrun; [|done].
    specialize (IH s1).
    destruct (for_gen rest body s1) as [[r s2] out2].
    unfold outcome_of, state_of in *. simpl in *.
    intros Hr. destruct (IH Hr) as (Hthrown & Hall & Hstate).
    split_and!; [done| |done].
    constructor; [|done]. intros s'. by rewrite <- Ha.
  - done.
Qed.

Lemma majors_record_valid (record : list string) (s : Repository.t) :
  well_formed 3 record →
  outcome_of (Repository.majors_record record s) = Return tt →
  valid_flag record.
Proof.
  destruct record as [|m [|f [|c [|]]]]; try done. intros _.
  rewrite majors_record_run, add_course_outcome. unfold outcome_of, valid_flag. simpl.
  repeat case_decide; subst; naive_solver.
Qed.

Lemma majors_steps_state (records : list (list string)) (s : Repository.t) :
  Forall (well_formed 3) records →
  foldl (step Repository.majors_record) s records
  = Repository.set_majors (λ d, foldl majors_step_record d records) s.
Proof.
  revert s. induction records as [|record records IH]; intros s Hwf; simpl.
  - by destruct s.
  - apply Forall_cons in Hwf as [Hrecord Hrecords]. rewrite IH by done.
    destruct record as [|m [|f [|c [|]]]]; try done.
    unfold step. rewrite majors_record_run. by destruct s.
Qed.

Lemma majors_step_spec (d : Dict.t Major.t) (m f c : string) :
  f = "R" ∨ f = "E" →
  majors_named d →
  let d' := majors_step m f c d in
  majors_named d'
  ∧ ∀ major,
      (is_Some (Dict.get d' major) ↔ is_Some (Dict.get d major) ∨ major = m)
      ∧ (∀ course, course ∈ required_of d' major
                   ↔ course ∈ required_of d major ∨ (major = m ∧ f = "R" ∧ course = c))
      ∧ (∀ course, course ∈ electives_of d' major
                   ↔ course ∈ electives_of d major ∨ (major = m ∧ f = "E" ∧ course = c)).
Proof.
  intros Hf Hnamed d'.
  assert (∀ major, Dict.get d' major
                   = if decide (m = major)
                     then Some (state_of (Major.add_course c f
                                  (default (Major.__init__ m) (Dict.get d m))))
                     else Dict.get d major) as Hget.
  { intros major. unfold d', majors_step. by rewrite get_set. }
  assert (Major._major (default (Major.__init__ m) (Dict.get d m)) = m) as Hname.
  { destruct (Dict.get d m) as [obj|] eqn:Hobj; simpl; [by apply Hnamed|done]. }
  split.
  - intros major obj. rewrite Hget. case_decide as Hm.
    + subst major. intros [= <-]. by destruct Hf as [->| ->].
    + apply Hnamed.
  - intros major. unfold required_of, electives_of. rewrite Hget.
    case_decide as Hm.
    + subst major.
      destruct (Dict.get d m) as [obj|] eqn:Hobj; simpl;
        (split_and!; [naive_solver| |]); intros course;
        destruct Hf as [->| ->]; simpl; set_solver.
    + split_and!; [naive_solver| |]; intros course; naive_solver.
Qed.

Lemma majors_steps_spec (records : list (list string)) (d : Dict.t Major.t) :
  Forall (λ record, well_formed 3 record ∧ valid_flag record) records →
  majors_named d →
  let d' := foldl majors_step_record d records in
  majors_named d'
  ∧ ∀ major,
      (is_Some (Dict.get d' major)
       ↔ is_Some (Dict.get d major) ∨ ∃ flag course, [major; flag; course] ∈ records)
      ∧ (∀ course, course ∈ required_of d' major
                   ↔ course ∈ required_of d major ∨ [major; "R"; course] ∈ records)
      ∧ (∀ course, course ∈ electives_of d' major
                   ↔ course ∈ electives_of d major ∨ [major; "E"; course] ∈ records).
Proof.
  revert d. induction records as [|record records IH]; intros d Hvalid Hnamed; simpl.
  - split; [done|]. intros major.
    split_and!; [|intros course..]; rewrite ?elem_of_nil; [|naive_solver..].
    split; [by left|]. intros [?|(? & ? & Hin)]; [done|]. by apply elem_of_nil in Hin.
  - apply Forall_cons in Hvalid as [[Hwf Hflag] Hvalid].
    destruct record as [|m [|f [|c [|]]]]; try done.
    assert (f = "R" ∨ f = "E") as Hf.
    { destruct Hflag as [Hflag|Hflag]; simpl in Hflag; naive_solver. }
    destruct (majors_step_spec d m f c Hf Hnamed) as [Hnamed1 Hstep].
    destruct (IH _ Hvalid Hnamed1) as [Hnamed' Hrest].
    split; [done|]. intros major.
    destruct (Hrest major) as (Hsome & Hreq & Hele).
    destruct (Hstep major) as (Hsome1 & Hreq1 & Hele1).
    split_and!.
    + rewrite Hsome, Hsome1. setoid_rewrite elem_of_cons. naive_solver.
    + intros course. rewrite Hreq, Hreq1, elem_of_cons. naive_solver.
    + intros course. rewrite Hele, Hele1, elem_of_cons. naive_solver.
Qed.

(** X7. When the majors loop returns normally, the majors of the
    repository are exactly the majors that the records of the file name,
    each stored under its own name, and the required courses and the
    electives of a major are exactly the courses of its R and its E
    records; the later load phases leave this as it is. *)
Theorem majors_from_records `{SetOrder} (fs : FileSystem) (db : Database)
    (path : string) (tables : bool) :
  let records := yielded (file_reader fs (path_join path "majors.txt") 3 tab true) in
  let self := state_of (Repository.__init__ fs db path tables) in
  outcome_of (Repository._get_majors fs (path_join path "majors.txt")
                (Repository.fresh path)) = Return tt →
  ∀ major,
    (is_Some (Dict.get (Repository._majors self) major)
     ↔ ∃ flag course, [major; flag; course] ∈ records)
    ∧ ∀ obj, Dict.get (Repository._majors self) major = Some obj →
        Major._major obj = major
        ∧ (∀ course, course ∈ Major._required obj ↔ [major; "R"; course] ∈ records)
        ∧ (∀ course, course ∈ Major._electives obj ↔ [major; "E"; course] ∈ records).
Proof.
  intros records self Hreturn.
  assert (Forall (well_formed 3) records) as Hwf by apply yielded_file_reader.
  assert (∀ record s s',
            outcome_of (Repository.majors_record record s)
            = outcome_of (Repository.majors_record record s')) as Hstateless.
  { intros record s s'. destruct record as [|m [|f [|c [|]]]]; try done.
    by rewrite !majors_record_run. }
  destruct (for_gen_Return _ _ Hstateless (Repository.fresh path) Hreturn)
    as (_ & Hall & Hstate).
  fold records in Hall, Hstate. rewrite majors_steps_state in Hstate by done.
  assert (Repository._majors self = foldl majors_step_record Dict.empty records) as ->.
  { unfold self. rewrite init_state. unfold Repository.load, bind at 1.
    fold (Repository._get_majors fs (path_join path "majors.txt")) in Hreturn, Hstate.
    destruct (Repository._get_majors fs (path_join path "majors.txt")
                (Repository.fresh path)) as [[r1 s1] out1].
    unfold outcome_of, state_of in Hreturn, Hstate. simpl in Hreturn, Hstate.
    subst r1.
    pose proof (after_majors fs path (Repository._majors s1) s1 eq_refl) as Hkeep.
    match type of Hkeep with context [state_of (?m s1)] =>
      destruct (m s1) as [[r2 s2] out2] end.
    unfold state_of in *. simpl in *. by rewrite Hkeep, Hstate. }
  assert (Forall (λ record, well_formed 3 record ∧ valid_flag record) records) as Hvalid.
  { rewrite Forall_forall in Hwf, Hall. apply Forall_forall. intros record Hin.
    split; [by apply Hwf|].
    apply (majors_record_valid record (Repository.fresh path)); [by apply Hwf|].
    by apply Hall. }
  destruct (majors_steps_spec records Dict.empty Hvalid) as [Hnamed Hspec]; [done|].
  intros major. destruct (Hspec major) as (Hsome & Hreq & Hele). split.
  - rewrite Hsome. split; [|by right]. intros [[? [=]]|?]; done.
  - intros obj Hobj. split; [by apply Hnamed|].
    unfold required_of, electives_of in Hreq, Hele. rewrite Hobj in Hreq, Hele.
    simpl in Hreq, Hele. split; intros course.
    + rewrite Hreq. set_solver.
    + rewrite Hele. set_solver.
Qed.

Lemma majors_from_records_witness :
  let records := yielded (file_reader sample_fs (path_join "HW11" "majors.txt") 3 tab true) in
  let self := state_of (@Repository.__init__ elements_order sample_fs no_database "HW11" true) in
  records = [["CS"; "R"; "CS101"]; ["CS"; "E"; "CS200"]]
  ∧ ∀ major,
      (is_Some (Dict.get (Repository._majors self) major)
       ↔ ∃ flag course, [major; flag; course] ∈ records)
      ∧ ∀ obj, Dict.get (Repository._majors self) major = Some obj →
          Major._major obj = major
          ∧ (∀ course, course ∈ Major._required obj ↔ [major; "R"; course] ∈ records)
          ∧ (∀ course, course ∈ Major._electives obj ↔ [major; "E"; course] ∈ records).
Proof.
  split; [reflexivity|].
  apply (@majors_from_records elements_order sample_fs no_database "HW11" true).
  reflexivity.
Defined.

(** ** Records that name the same key *)

Lemma foldl_invariants {S A} (f : S → A → S) (Q P : S → Prop)
    (pre : list A) (a : A) (post : list A) (s : S) :
  Q s →
  (∀ b s, Q s → Q (f s b)) →
  (∀ s, Q s → P (f s a)) →
  (∀ b s, b ∈ post → P s → P (f s b)) →
  P (foldl f s (pre ++ a :: post)).
Proof.
  intros Hs HQ Ha HP. rewrite foldl_app. simpl.
  assert (Q (foldl f s pre)) as Hpre.
  { clear Ha HP. revert s Hs. induction pre as [|b pre IH]; intros s Hs; simpl; [done|].
    apply IH. by apply HQ. }
  apply Ha in Hpre. clear Ha Hs HQ. revert Hpre. generalize (f (foldl f s pre) a).
  induction post as [|b post IH]; intros s' Hs'; simpl; [done|].
  apply IH.
  - intros b' s'' Hin. apply HP. by right.
  - apply HP; [by left|done].
Qed.

Lemma foldl_invariant {S A} (f : S → A → S) (P : S → Prop) (l : list A) (s : S) :
  P s → (∀ b s, b ∈ l → P s → P (f s b)) → P (foldl f s l).
Proof.
  revert s. induction l as [|b l IH]; intros s Hs HP; simpl; [done|].
  apply IH.
  - apply HP; [by left|done].
  - intros b' s' Hin. apply HP. by right.
Qed.

(** X8. Of the students records with the same CWID the last one with a
    known major wins: the student stored under the CWID is the fresh
    student of that record, and a later record of the CWID whose major is
    unknown only prints its line. *)
Theorem students_last_record_wins (fs : FileSystem) (path : string) (self : Repository.t)
    (cwid name major : string) (pre post : list (list string)) :
  yielded (file_reader fs path 3 tab true) = pre ++ [cwid; name; major] :: post →
  is_Some (Dict.get (Repository._majors self) major) →
  Forall (λ record, record !! 0%nat = Some cwid →
                    ∃ unknown, record !! 2%nat = Some unknown
                               ∧ Dict.get (Repository._majors self) unknown = None) post →
  Dict.get (Repository._students (state_of (Repository._get_students fs path self))) cwid
  = Some (Student.__init__ cwid name major).
Proof.
  intros Hyielded Hmajor Hpost.
  destruct (reader_loop_returns fs path 3 _ students_record_returns self) as [_ Hstate].
  unfold Repository._get_students. rewrite Hstate, Hyielded.
  apply (foldl_invariants (step Repository.students_record)
           (λ s, Repository._majors s = Repository._majors self)
           (λ s, Repository._majors s = Repository._majors self
                 ∧ Dict.get (Repository._students s) cwid
                   = Some (Student.__init__ cwid name major))).
  - done.
  - intros record s Hs. unfold step.
    destruct (students_record_frame record s) as (-> & _). done.
  - intros s Hs. unfold step. rewrite students_record_run.
    apply mem_true in Hmajor. rewrite Hs, Hmajor. unfold state_of. simpl.
    by rewrite get_set_eq.
  - intros record s Hin [Hs Hget]. unfold step.
    split; [by destruct (students_record_frame record s) as (-> & _)|].
    rewrite Forall_forall in Hpost. specialize (Hpost record Hin).
    destruct record as [|c [|n [|m [|]]]]; try done.
    rewrite students_record_run, Hs.
    destruct (Dict.mem m (Repository._majors self)) eqn:Hmem; [|done].
    unfold state_of. simpl. rewrite get_set. case_decide as Hc; [|done].
    subst c. destruct Hpost as (unknown & [= <-] & Hunknown); [done|].
    apply mem_true in Hmem as [? Hmem]. congruence.
Qed.

Lemma students_last_record_wins_witness :
  let fs : FileSystem := <["HW11/students.txt" := duplicate_students_txt]> sample_fs in
  Dict.get
    (Repository._students
       (state_of (Repository._get_students fs "HW11/students.txt" sample_repository)))
    "1" = Some (Student.__init__ "1" "Amy B" "CS").
Proof.
  intros fs.
  apply (students_last_record_wins fs "HW11/students.txt" sample_repository
           "1" "Amy B" "CS" [["1"; "Amy"; "CS"]] [["1"; "Amy C"; "EE"]]).
  - reflexivity.
  - by eexists.
  - repeat constructor. intros _. by exists "EE".
Defined.

(** X9. Of the instructors records with the same CWID the last one wins,
    and an instructor that no record names stays as it was. *)
Theorem instructors_last_record_wins (fs : FileSystem) (path : string)
    (self : Repository.t) (cwid : string) :
  let self' := state_of (Repository._get_instructors fs path self) in
  (∀ name dept pre post,
     yielded (file_reader fs path 3 tab true) = pre ++ [cwid; name; dept] :: post →
     Forall (λ record, record !! 0%nat ≠ Some cwid) post →
     Dict.get (Repository._instructors self') cwid
     = Some (Instructor.__init__ cwid name dept))
  ∧ (Forall (λ record, record !! 0%nat ≠ Some cwid)
       (yielded (file_reader fs path 3 tab true)) →
     Dict.get (Repository._instructors self') cwid
     = Dict.get (Repository._instructors self) cwid).
Proof.
  intros self'.
  destruct (reader_loop_returns fs path 3 _ instructors_record_returns self) as [_ Hstate].
  unfold self', Repository._get_instructors. rewrite Hstate. clear Hstate self'.
  assert (∀ record s, record !! 0%nat ≠ Some cwid →
            Dict.get (Repository._instructors (step Repository.instructors_record s record))
              cwid = Dict.get (Repository._instructors s) cwid) as Hother.
  { intros record s Hne. destruct record as [|c [|n [|d [|]]]]; try done.
    unfold step, state_of. simpl. rewrite get_set, decide_False; [done|].
    by intros ->. }
  split.
  - intros name dept pre post -> Hpost.
    apply (foldl_invariants (step Repository.instructors_record) (λ _, True)
             (λ s, Dict.get (Repository._instructors s) cwid
                   = Some (Instructor.__init__ cwid name dept))); try done.
    + intros s _. unfold step, state_of. simpl. by rewrite get_set_eq.
    + intros record s Hin Hget. rewrite Hother; [done|].
      rewrite Forall_forall in Hpost. by apply Hpost.
  - intros Hnone.
    apply (foldl_invariant (step Repository.instructors_record)
             (λ s, Dict.get (Repository._instructors s) cwid
                   = Dict.get (Repository._instructors self) cwid)); [done|].
    intros record s Hin Hget. rewrite Hother; [done|].
    rewrite Forall_forall in Hnone. by apply Hnone.
Qed.

Lemma get_grade_students (std_cwid course grade : string) (d : Dict.t Student.t)
    (cwid : string) :
  Dict.get (grade_students std_cwid course grade d) cwid
  = match Dict.get d cwid with
    | Some student =>
        Some (if decide (std_cwid = cwid)
              then state_of (Student.add_course course grade student)
              else student)
    | None => None
    end.
Proof.
  unfold grade_students. destruct (Dict.get d std_cwid) as [student|] eqn:Hstudent.
  - rewrite get_set. case_decide as Hc.
    + subst cwid. by rewrite Hstudent.
    + by destruct (Dict.get d cwid).
  - destruct (Dict.get d cwid) as [student|] eqn:Hcwid; [|done].
    case_decide as Hc; [|done]. congruence.
Qed.

(** X10. Of the grade records for the same student and course the last
    one wins: the student's dictionary holds its grade, so that an earlier
    grade for the course is gone, and the records leave the student's
    CWID, name and major alone. *)
Theorem grades_last_record_wins (fs : FileSystem) (path : string) (self : Repository.t)
    (std_cwid course grade instructor_cwid : string) (student : Student.t)
    (pre post : list (list string)) :
  yielded (file_reader fs path 4 tab true)
    = pre ++ [std_cwid; course; grade; instructor_cwid] :: post →
  Dict.get (Repository._students self) std_cwid = Some student →
  Forall (λ record, ¬ (record !! 0%nat = Some std_cwid ∧ record !! 1%nat = Some course))
    post →
  ∃ student',
    Dict.get (Repository._students (state_of (Repository._get_grades fs path self)))
      std_cwid = Some student'
    ∧ Dict.get (Student._courses student') course = Some grade
    ∧ Student._cwid student' = Student._cwid student
    ∧ Student._name student' = Student._name student
    ∧ Student._major student' = Student._major student.
Proof.
  intros Hyielded Hstudent Hpost.
  destruct (reader_loop_returns fs path 4 _ grades_record_returns self) as [_ Hstate].
  unfold Repository._get_grades. rewrite Hstate, Hyielded. clear Hstate.
  set (same := λ student' : Student.t,
         Student._cwid student' = Student._cwid student
         ∧ Student._name student' = Student._name student
         ∧ Student._major student' = Student._major student).
  cut (∃ student',
         Dict.get (Repository._students
                     (foldl (step Repository.grades_record) self
                        (pre ++ [std_cwid; course; grade; instructor_cwid] :: post)))
           std_cwid = Some student'
         ∧ same student'
         ∧ Dict.get (Student._courses student') course = Some grade).
  { intros (student' & ? & (? & ? & ?) & ?). by exists student'. }
  apply (foldl_invariants (step Repository.grades_record)
           (λ s, ∃ student', Dict.get (Repository._students s) std_cwid = Some student'
                             ∧ same student')
           (λ s, ∃ student', Dict.get (Repository._students s) std_cwid = Some student'
                             ∧ same student'
                             ∧ Dict.get (Student._courses student') course = Some grade)).
  - by exists student.
  - intros record s (student' & Hget & Hsame).
    destruct record as [|c [|crs [|g [|i [|]]]]]; try by exists student'.
    unfold step. rewrite grades_record_run. unfold state_of. simpl.
    rewrite get_grade_students, Hget. eexists. split; [done|].
    by case_decide.
  - intros s (student' & Hget & Hsame).
    unfold step. rewrite grades_record_run. unfold state_of. simpl.
    rewrite get_grade_students, Hget, decide_True by done.
    eexists. split; [done|]. split; [done|]. simpl. by rewrite get_set_eq.
  - intros record s Hin (student' & Hget & Hsame & Hgrade).
    rewrite Forall_forall in Hpost. specialize (Hpost record Hin).
    destruct record as [|c [|crs [|g [|i [|]]]]]; try by exists student'.
    unfold step. rewrite grades_record_run. unfold state_of. simpl.
    rewrite get_grade_students, Hget. eexists. split; [done|].
    case_decide as Hc; [|done]. split; [done|]. simpl.
    rewrite get_set, decide_False; [done|]. intros ->. apply Hpost. by subst.
Qed.

Lemma grades_last_record_wins_witness :
  let fs : FileSystem := <["HW11/grades.txt" := repeated_grades_txt]> sample_fs in
  ∃ student',
    Dict.get
      (Repository._students
         (state_of (Repository._get_grades fs "HW11/grades.txt" sample_repository)))
      "1" = Some student'
    ∧ Dict.get (Student._courses student') "CS101" = Some "A"
    ∧ Student._cwid student' = "1"
    ∧ Student._name student' = "Amy"
    ∧ Student._major student' = "CS".
Proof.
  intros fs.
  apply (grades_last_record_wins fs "HW11/grades.txt" sample_repository
           "1" "CS101" "A" "9" (Student.__init__ "1" "Amy" "CS")
           [["1"; "CS101"; "F"; "9"]] [["1"; "CS200"; "B"; "9"]]).
  - reflexivity.
  - reflexivity.
  - repeat constructor. by intros [_ [=]].
Defined.

(** ** The rows of the instructor table *)

Lemma values_set_Forall {V} (P : V → Prop) (d : Dict.t V) (k : string) (v : V) :
  Forall P (Dict.values d) → P v → Forall P (Dict.values (Dict.set d k v)).
Proof.
  intros Hd Hv. induction d as [|[k0 v0] d IH]; simpl.
  - by repeat constructor.
  - apply Forall_cons in Hd as [Hv0 Hd]. case_decide; simpl; constructor; auto.
Qed.

Lemma get_keys {V} (d : Dict.t V) (k : string) (v : V) :
  Dict.get d k = Some v → k ∈ Dict.keys d.
Proof.
  induction d as [|[k0 v0] d IH]; simpl; [done|].
  case_decide as Hk; [subst; left|right; auto].
Qed.

Lemma instructors_record_consistent (record : list string) :
  preserves instructors_consistent (Repository.instructors_record record).
Proof.
  intros s [Hkeys Hall]. destruct record as [|cwid [|name [|dept [|]]]]; try done.
  unfold state_of, instructors_consistent. simpl. split; [by apply NoDup_keys_set|].
  intros cwid' instructor. rewrite get_set. case_decide as Hc; [|by apply Hall].
  subst cwid'. intros [= <-]. simpl. split_and!; [done|constructor|constructor].
Qed.

Lemma grades_record_consistent (record : list string) :
  preserves instructors_consistent (Repository.grades_record record).
Proof.
  intros s [Hkeys Hall]. destruct record as [|c [|crs [|g [|i [|]]]]]; try done.
  rewrite grades_record_run. unfold state_of, instructors_consistent. simpl.
  unfold grade_instructors.
  destruct (Dict.get (Repository._instructors s) i) as [instructor|] eqn:Hi; [|done].
  split; [by apply NoDup_keys_set|].
  intros cwid instructor'. rewrite get_set. case_decide as Hc; [|by apply Hall].
  subst cwid. intros [= <-]. destruct (Hall i instructor Hi) as (Hcwid & Hcourses & Hcounts).
  unfold state_of. simpl. split_and!; [done|by apply NoDup_keys_set|].
  apply values_set_Forall; [done|lia].
Qed.

Lemma load_consistent (fs : FileSystem) (path : string) :
  preserves instructors_consistent (Repository.load fs path).
Proof.
  unfold Repository.load.
  repeat (apply preserves_bind; [|intros _]); apply preserves_for_gen; intros record.
  - intros s Hs. destruct (majors_record_frame record s) as (_ & Hsame & _).
    unfold instructors_consistent. by rewrite Hsame.
  - intros s Hs. destruct (students_record_frame record s) as (_ & Hsame & _).
    unfold instructors_consistent. by rewrite Hsame.
  - apply instructors_record_consistent.
  - apply grades_record_consistent.
Qed.

Lemma info_keys (instructor : Instructor.t) :
  map row_key (Instructor.info instructor)
  = (λ course, (Some (CStr (Instructor._cwid instructor)), Some (CStr course)))
      <$> Dict.keys (Instructor._courses instructor).
Proof.
  unfold Instructor.info, Dict.items, Dict.keys.
  induction (Instructor._courses instructor) as [|[course count] d IH]; [done|].
  simpl. by rewrite IH.
Qed.

Lemma info_counts (instructor : Instructor.t) :
  Forall (λ count, 1 ≤ count)%nat (Dict.values (Instructor._courses instructor)) →
  Forall (λ row, ∃ count, row !! 4%nat = Some (CInt count) ∧ (1 ≤ count)%nat)
    (Instructor.info instructor).
Proof.
  unfold Instructor.info, Dict.items, Dict.values.
  induction (Instructor._courses instructor) as [|[course count] d IH]; simpl.
  - constructor.
  - intros [Hcount Hd]%Forall_cons. constructor; [by exists count|by apply IH].
Qed.

Lemma rows_of_dict (d : Dict.t Instructor.t) :
  NoDup (Dict.keys d) →
  (∀ cwid instructor, Dict.get d cwid = Some instructor →
     Instructor._cwid instructor = cwid
     ∧ NoDup (Dict.keys (Instructor._courses instructor))
     ∧ Forall (λ count, 1 ≤ count)%nat (Dict.values (Instructor._courses instructor))) →
  let rows := concat (map Instructor.info (Dict.values d)) in
  NoDup (map row_key rows)
  ∧ Forall (λ row, ∃ count, row !! 4%nat = Some (CInt count) ∧ (1 ≤ count)%nat) rows
  ∧ ∀ key, key ∈ map row_key rows →
      ∃ cwid course, cwid ∈ Dict.keys d ∧ key = (Some (CStr cwid), Some (CStr course)).
Proof.
  induction d as [|[cwid instructor] d IH]; intros Hkeys Hall; simpl.
  - split_and!; [constructor|constructor|]. intros key Hin. by apply elem_of_nil in Hin.
  - simpl in Hkeys. apply NoDup_cons in Hkeys as [Hnew Hkeys].
    destruct (Hall cwid instructor) as (Hcwid & Hcourses & Hcounts).
    { simpl. by rewrite decide_True. }
    destruct IH as (Hdistinct & Hpositive & Hmembers); [done| |].
    { intros cwid' instructor' Hget. apply Hall. simpl.
      rewrite decide_False; [done|]. intros ->. apply Hnew. by eapply get_keys. }
    rewrite map_app, info_keys, Hcwid. split_and!.
    + apply NoDup_app. split_and!; [| |done].
      * apply NoDup_fmap_2; [|done]. by intros c1 c2 [=].
      * intros key [course [-> _]]%list_elem_of_fmap Hin.
        destruct (Hmembers _ Hin) as (cwid' & course' & Hin' & [= <- _]). done.
    + apply Forall_app. split; [by apply info_counts|done].
    + intros key [Hin|Hin]%elem_of_app.
      * apply list_elem_of_fmap in Hin as [course [-> _]].
        exists cwid, course. split; [by left|done].
      * destruct (Hmembers _ Hin) as (cwid' & course' & Hin' & ->).
        exists cwid', course'. split; [by right|done].
Qed.

(** X11. Whatever the files hold, the instructor table of the repository
    that the constructor leaves has no two rows for the same instructor
    CWID and course, and every row counts at least one student: a course
    has a row only once a grade record has named it. *)
Theorem instructor_rows_distinct `{SetOrder} (fs : FileSystem) (db : Database)
    (path : string) (tables : bool) :
  let self := state_of (Repository.__init__ fs db path tables) in
  let rows := instructor_rows self in
  Repository.instructor_table self
    = (Return tt, self, [PrintTable Instructor.FIELD_NAMES rows])
  ∧ NoDup (map row_key rows)
  ∧ Forall (λ row, ∃ count, row !! 4%nat = Some (CInt count) ∧ (1 ≤ count)%nat) rows.
Proof.
  intros self rows. split; [done|]. unfold rows, self. rewrite init_state.
  destruct (load_consistent fs path (Repository.fresh path)) as [Hkeys Hall].
  { split; [constructor|done]. }
  destruct (rows_of_dict _ Hkeys Hall) as (Hdistinct & Hpositive & _). done.
Qed.

(** ** The reports *)

Lemma comprehension_returns {S A B} (f : A → M S B) (out_of : A → list event)
    (l : list A) (s : S) :
  (∀ a, a ∈ l → ∃ b, f a s = (Return b, s, out_of a)) →
  ∃ bs, comprehension f l s = (Return bs, s, concat (map out_of l))
        ∧ Forall2 (λ a b, f a s = (Return b, s, out_of a)) l bs.
Proof.
  induction l as [|a l IH]; intros Hf; simpl.
  - by exists [].
  - destruct (Hf a) as [b Hb]; [by left|].
    destruct IH as (bs & Hbs & Hall); [intros a' Hin; apply Hf; by right|].
    exists (b :: bs). unfold bind. rewrite Hb, Hbs. simpl. rewrite app_nil_r.
    split; [done|by constructor].
Qed.

Lemma info_run `{SetOrder} {S} (majors : Dict.t Major.t) (self : Student.t) (s : S) :
  is_Some (Dict.get majors (Student._major self)) →
  first_unknown (Dict.values (Student._courses self)) = None →
  ∃ row, Student.info majors self s
         = (Return row, s,
            if decide (Student._courses self = []) then [Print "division by zero"]
            else []).
Proof.
  intros [obj Hobj] Hknown. unfold Student.info. rewrite Hobj.
  destruct (Major.remaining obj (Student._courses self)) as [[[major passed] remaining] owed].
  unfold bind. rewrite gpa_run. cbv zeta. rewrite Hknown.
  destruct (decide (Student._courses self = [])) as [Hempty|Hcourses].
  - rewrite Hempty. by eexists.
  - rewrite decide_False; [by eexists|].
    by destruct (Student._courses self).
Qed.

Lemma zero_division_lines (students : list Student.t) :
  concat (map (λ student, if decide (Student._courses student = [])
                          then [Print "division by zero"] else []) students)
  = replicate (length (filter (λ student, Student._courses student = []) students))
      (Print "division by zero").
Proof.
  induction students as [|student students IH]; [done|]. simpl.
  rewrite filter_cons. case_decide; simpl; by rewrite IH.
Qed.

(** The reports of a repository whose students refer to its majors and
    have grades with grade points: the three tables, then the summary. *)
Lemma reports_run `{SetOrder} (self : Repository.t) :
  references_resolve self →
  NoDup (Dict.keys (Repository._students self)) →
  grades_known self →
  ∃ student_rows,
    Forall2 (λ student row, ∃ out, Student.info (Repository._majors self) student self
                                     = (Return row, self, out))
      (Dict.values (Repository._students self)) student_rows
    ∧ ∀ db, Repository.reports db true self
            = let '(r, s', out) :=
                Repository.instructor_table_db db Repository.default_db_path self in
              (r, s', tables_output self student_rows ++ out).
Proof.
  intros Hresolve Hkeys Hknown.
  destruct (comprehension_returns (Student.info (Repository._majors self))
              (λ student, if decide (Student._courses student = [])
                          then [Print "division by zero"] else [])
              (Dict.values (Repository._students self)) self)
    as (student_rows & Hrun & Hrows).
  { intros student Hin. apply values_get in Hin as [cwid Hget]; [|done].
    apply info_run; [by apply (Hresolve cwid)|by apply (Hknown cwid)]. }
  exists student_rows. split.
  { eapply Forall2_impl; [exact Hrows|]. intros student row Hrow. simpl in Hrow. eexists. exact Hrow. }
  intros db. rewrite zero_division_lines in Hrun.
  unfold Repository.reports, Repository.majors_table, Repository.student_table,
    Repository.instructor_table, tables_output, instructor_rows.
  unfold bind, get_self, print, print_table. rewrite Hrun.
  destruct (Repository.instructor_table_db db Repository.default_db_path self)
    as [[r s'] out]. simpl. by rewrite <- !app_assoc.
Qed.

Lemma loaded_repository (fs : FileSystem) (path : string) (self : Repository.t)
    (out : list event) :
  Repository.load fs path (Repository.fresh path) = (Return tt, self, out) →
  references_resolve self ∧ NoDup (Dict.keys (Repository._students self)).
Proof.
  intros Hload.
  pose proof (load_resolve fs path (Repository.fresh path)) as Hresolve.
  pose proof (load_students_keys fs path (Repository.fresh path)) as Hkeys.
  rewrite Hload in Hresolve, Hkeys. split.
  - by apply Hresolve.
  - apply Hkeys. constructor.
Qed.

Lemma init_run `{SetOrder} (fs : FileSystem) (db : Database) (path : string)
    (self : Repository.t) (out : list event) :
  Repository.load fs path (Repository.fresh path) = (Return tt, self, out) →
  Repository.__init__ fs db path true
  = let '(r, s', out') := Repository.reports db true self in (r, s', out ++ out').
Proof. intros Hload. unfold Repository.__init__, try_except_else. by rewrite Hload. Qed.

(** X12. When the four files load, every grade has grade points and the
    store answers the query, the constructor returns normally, leaves the
    repository as loaded and prints, after the lines of the loading, the
    majors table, a division-by-zero line for each student without courses,
    the student table with one row per student in the order of the
    dictionary, the instructor table and the grade summary. *)
Theorem reports_after_load `{SetOrder} (fs : FileSystem) (db : Database) (path : string)
    (self : Repository.t) (out : list event) (rows : list (list cell)) :
  Repository.load fs path (Repository.fresh path) = (Return tt, self, out) →
  grades_known self →
  db Repository.default_db_path = Return (Return rows) →
  ∃ student_rows,
    Forall2 (λ student row, ∃ out, Student.info (Repository._majors self) student self
                                     = (Return row, self, out))
      (Dict.values (Repository._students self)) student_rows
    ∧ Repository.__init__ fs db path true
      = (Return tt, self,
         out ++ tables_output self student_rows
             ++ [PrintTable ["Name"; "CWID"; "Course"; "Grade"; "Instructor"] rows]).
Proof.
  intros Hload Hknown Hdb.
  destruct (loaded_repository fs path self out Hload) as [Hresolve Hkeys].
  destruct (reports_run self Hresolve Hkeys Hknown) as (student_rows & Hrows & Hreports).
  exists student_rows. split; [done|].
  rewrite (init_run fs db path self out Hload), Hreports.
  unfold Repository.instructor_table_db, try_except, bind. rewrite Hdb. done.
Qed.

(** X13. When the files load and every grade has grade points but the
    store cannot be opened, the three tables and the caption of the summary
    are printed all the same and the constructor then raises: the exception
    of the connection when it is not one of the two handled classes, and
    otherwise, its message printed, an [UnboundLocalError], the query
    reading a variable that was never assigned.  An exception of the query
    itself propagates. *)
Theorem summary_without_store `{SetOrder} (fs : FileSystem) (db : Database)
    (path : string) (self : Repository.t) (out : list event) :
  Repository.load fs path (Repository.fresh path) = (Return tt, self, out) →
  grades_known self →
  ∃ student_rows,
    Forall2 (λ student row, ∃ out, Student.info (Repository._majors self) student self
                                     = (Return row, self, out))
      (Dict.values (Repository._students self)) student_rows
    ∧ ∀ e,
        (db Repository.default_db_path = Raise e →
         Repository.__init__ fs db path true
         = if Repository.is_load_error e then
             (Raise (UnboundLocalError
                "cannot access local variable 'db' where it is not associated with a value"),
              self, out ++ tables_output self student_rows ++ [Print (str_exn e)])
           else (Raise e, self, out ++ tables_output self student_rows))
        ∧ (db Repository.default_db_path = Return (Raise e) →
           Repository.__init__ fs db path true
           = (Raise e, self, out ++ tables_output self student_rows)).
Proof.
  intros Hload Hknown.
  destruct (loaded_repository fs path self out Hload) as [Hresolve Hkeys].
  destruct (reports_run self Hresolve Hkeys Hknown) as (student_rows & Hrows & Hreports).
  exists student_rows. split; [done|]. intros e.
  rewrite (init_run fs db path self out Hload), Hreports.
  unfold Repository.instructor_table_db, try_except, bind.
  split; intros ->; simpl.
  - destruct (Repository.is_load_error e); simpl; by rewrite ?app_nil_r.
  - by rewrite app_nil_r.
Qed.

Lemma sample_grades_known :
  grades_known (state_of (Repository.load sample_fs "HW11" (Repository.fresh "HW11"))).
Proof.
  intros cwid student. vm_compute state_of. simpl.
  case_decide; [|done]. by intros [= <-].
Qed.

Lemma reports_after_load_witness :
  let self := state_of (Repository.load sample_fs "HW11" (Repository.fresh "HW11")) in
  ∃ student_rows,
    Forall2 (λ student row, ∃ out, @Student.info elements_order _
                                     (Repository._majors self) student self
                                   = (Return row, self, out))
      (Dict.values (Repository._students self)) student_rows
    ∧ @Repository.__init__ elements_order sample_fs no_database "HW11" true
      = (Return tt, self,
         [Print "Student 2 'Bob' has unknown major 'EE'"; Print "Grades for student is 7"]
         ++ @tables_output elements_order self student_rows
         ++ [PrintTable ["Name"; "CWID"; "Course"; "Grade"; "Instructor"] []]).
Proof.
  intros self.
  apply (@reports_after_load elements_order sample_fs no_database "HW11" self
           [Print "Student 2 'Bob' has unknown major 'EE'"; Print "Grades for student is 7"]
           []).
  - by vm_compute.
  - apply sample_grades_known.
  - reflexivity.
Defined.

Lemma summary_without_store_witness :
  let self := state_of (Repository.load sample_fs "HW11" (Repository.fresh "HW11")) in
  let out := [Print "Student 2 'Bob' has unknown major 'EE'";
              Print "Grades for student is 7"] in
  (∃ student_rows,
     @Repository.__init__ elements_order sample_fs missing_database "HW11" true
     = (Raise (OperationalError "unable to open database file"), self,
        out ++ @tables_output elements_order self student_rows))
  ∧ (∃ student_rows,
       @Repository.__init__ elements_order sample_fs null_path_database "HW11" true
       = (Raise (UnboundLocalError
            "cannot access local variable 'db' where it is not associated with a value"),
          self,
          out ++ @tables_output elements_order self student_rows
              ++ [Print "embedded null byte"])).
Proof.
  intros self out. split.
  - destruct (@summary_without_store elements_order sample_fs missing_database "HW11"
                self out) as (student_rows & _ & Hmissing).
    { by vm_compute. }
    { apply sample_grades_known. }
    exists student_rows. exact (proj1 (Hmissing _) eq_refl).
  - destruct (@summary_without_store elements_order sample_fs null_path_database "HW11"
                self out) as (student_rows & _ & Hnull).
    { by vm_compute. }
    { apply sample_grades_known. }
    exists student_rows. exact (proj1 (Hnull _) eq_refl).
Defined.

(** ** The order of strings and the order of sets *)

Lemma ascii_compare_trans (a b c : ascii) :
  Ascii.compare a b = Lt → Ascii.compare b c = Lt → Ascii.compare a c = Lt.
Proof.
  unfold Ascii.compare. rewrite !N.compare_lt_iff. apply N.lt_trans.
Qed.

Lemma ascii_compare_refl (a : ascii) : Ascii.compare a a = Eq.
Proof. unfold Ascii.compare. apply N.compare_refl. Qed.

Lemma string_compare_trans (s1 s2 s3 : string) :
  String.compare s1 s2 = Lt → String.compare s2 s3 = Lt → String.compare s1 s3 = Lt.
Proof.
  revert s2 s3. induction s1 as [|a s1 IH]; intros [|b s2] [|c s3]; simpl; try done.
  destruct (Ascii.compare a b) eqn:Hab; [|intros _|done].
  - apply Ascii.compare_eq_iff in Hab as ->.
    destruct (Ascii.compare b c); [apply IH|done|done].
  - destruct (Ascii.compare b c) eqn:Hbc; [|intros _|done].
    + apply Ascii.compare_eq_iff in Hbc as ->. by rewrite Hab.
    + by rewrite (ascii_compare_trans a b c).
Qed.

Lemma str_le_lt (a b : string) : str_le a b ↔ String.compare a b = Lt ∨ a = b.
Proof.
  unfold str_le, String.leb. split.
  - destruct (String.compare a b) eqn:Hab; [|by left|done].
    right. by apply String.compare_eq_iff.
  - intros [->| ->]; [done|].
    assert (String.compare b b = Eq) as ->; [|done].
    induction b as [|c b IH]; [done|]. simpl. by rewrite ascii_compare_refl.
Qed.

#[global] Instance str_le_trans : Transitive str_le.
Proof.
  intros a b c. rewrite !str_le_lt. intros [Hab| ->] [Hbc| ->]; auto.
  left. by apply (string_compare_trans a b c).
Qed.

#[global] Instance str_le_antisymm : AntiSymm (=) str_le.
Proof. intros a b. apply String.leb_antisym. Qed.

(** [sorted] gives the same list for any two enumerations of a set. *)
Lemma sorted_unique (l1 l2 : list string) : l1 ≡ₚ l2 → sorted l1 = sorted l2.
Proof.
  intros Hperm. apply (Sorted_unique str_le); [apply Sorted_sorted..|].
  by rewrite !sorted_perm.
Qed.

Lemma sorted_set_to_list (order1 order2 : SetOrder) (X : gset string) :
  sorted (@set_to_list order1 X) = sorted (@set_to_list order2 X).
Proof. apply sorted_unique. by rewrite !set_to_list_perm. Qed.

Lemma major_info_order (order1 order2 : SetOrder) (self : Major.t) :
  @Major.info order1 self = @Major.info order2 self.
Proof.
  unfold Major.info.
  by rewrite (sorted_set_to_list order1 order2 (Major._required self)),
    (sorted_set_to_list order1 order2 (Major._electives self)).
Qed.

Lemma student_info_order (order1 order2 : SetOrder) {S} (majors : Dict.t Major.t)
    (self : Student.t) :
  @Student.info order1 S majors self = @Student.info order2 S majors self.
Proof.
  unfold Student.info. destruct (Dict.get majors (Student._major self)) as [obj|]; [|done].
  unfold Major.remaining. cbv zeta. case_decide; simpl;
    by rewrite ?(sorted_set_to_list order1 order2).
Qed.

Lemma comprehension_ext {S A B} (f g : A → M S B) (l : list A) (s : S) :
  (∀ a, f a = g a) → comprehension f l s = comprehension g l s.
Proof.
  intros Hfg. revert s. induction l as [|a l IH]; intros s; simpl; [done|].
  unfold bind. rewrite Hfg. destruct (g a s) as [[[b|e] s'] out]; [|done].
  by rewrite IH.
Qed.

Lemma reports_order (order1 order2 : SetOrder) (db : Database) (tables : bool)
    (self : Repository.t) :
  @Repository.reports order1 db tables self = @Repository.reports order2 db tables self.
Proof.
  unfold Repository.reports. destruct tables; [|done].
  unfold Repository.majors_table, Repository.student_table, bind, get_self, print,
    print_table.
  rewrite (map_ext _ _ (major_info_order order1 order2)).
  by rewrite (comprehension_ext _ _ _ _
                (student_info_order order1 order2 (Repository._majors self))).
Qed.

(** X14. The order in which Python enumerates a set does not show: for
    any two enumeration orders the constructor gives the same outcome, the
    same repository and the same output, every list of courses being
    sorted before it is printed. *)
Theorem reports_independent_of_set_order (order1 order2 : SetOrder)
    (fs : FileSystem) (db : Database) (path : string) (tables : bool) :
  @Repository.__init__ order1 fs db path tables
  = @Repository.__init__ order2 fs db path tables.
Proof.
  unfold Repository.__init__, try_except_else.
  destruct (Repository.load fs path (Repository.fresh path)) as [[[[]|e] self] out];
    [|done].
  by rewrite (reports_order order1 order2).
Qed.

(** ** The earlier version of the program *)

Lemma hw09_students_record_returns (record : list string) (s : HW09.Repository.t) :
  well_formed 3 record → outcome_of (HW09.Repository.students_record record s) = Return tt.
Proof. by destruct record as [|a [|b [|c [|]]]]. Qed.







Lemma yielded_rows (path : string) (fields : nat) (rows : list (list string))
    (line_num : nat) (header : bool) (record : list string) :
  record ∈ yielded (read_rows path fields rows line_num header) → record ∈ rows.
Proof.
  revert line_num header. induction rows as [|line rows IH]; intros line_num header; simpl.
  - by intros ?%elem_of_nil.
  - case_decide; [by intros ?%elem_of_nil|]. destruct header; simpl.
    + intros Hin. right. by eapply IH.
    + intros [->|Hin]%elem_of_cons; [by left|]. right. by eapply IH.
Qed.

(** X16. The earlier version reads its files with [header=False] and
    checks no major: every line of the students file up to the first
    malformed one is a student, the first line included, so that a header
    line becomes a student; of the lines with the same CWID the last one
    wins. *)
Theorem hw09_every_line_is_a_student (fs : FileSystem) (path : string) (f : file)
    (self : HW09.Repository.t) (cwid name major : string)
    (pre post : list (list string)) :
  fs !! path = Some f →
  csv_reader f tab = pre ++ [cwid; name; major] :: post →
  Forall (well_formed 3) pre →
  Forall (λ line, line !! 0%nat ≠ Some cwid) post →
  Dict.get
    (HW09.Repository._students (state_of (HW09.Repository._get_students fs path self)))
    cwid
  = Some (HW09.Student.__init__ cwid name major).
Proof.
  intros Hfile Hrows Hpre Hpost.
  destruct (for_gen_returns (file_reader fs path 3 tab false)
              HW09.Repository.students_record) with (s := self) as [_ Hstate].
  { intros record s Hin. apply hw09_students_record_returns.
    pose proof (yielded_file_reader fs path 3 tab false) as Hwf.
    rewrite Forall_forall in Hwf. by apply Hwf. }
  unfold HW09.Repository._get_students. rewrite Hstate. clear Hstate.
  unfold file_reader. rewrite Hfile, Hrows.
  destruct (read_rows_prefix path 3 pre ([cwid; name; major] :: post) 0 Hpre) as [-> _].
  rewrite read_rows_yield by done. cbn [yielded].
  apply (foldl_invariants (step HW09.Repository.students_record) (λ _, True)
           (λ s, Dict.get (HW09.Repository._students s) cwid
                 = Some (HW09.Student.__init__ cwid name major))); try done.
  - intros s _. unfold step, state_of. simpl. by rewrite get_set_eq.
  - intros record s Hin%yielded_rows Hget.
    rewrite Forall_forall in Hpost. specialize (Hpost record Hin).
    destruct record as [|c [|n [|m [|]]]]; try done.
    unfold step, state_of. simpl. rewrite get_set, decide_False; [done|].
    by intros ->.
Qed.

Lemma hw09_every_line_is_a_student_witness :
  Dict.get
    (HW09.Repository._students
       (state_of (HW09.Repository._get_students sample_fs "HW11/students.txt"
                    (HW09.Repository.fresh "HW11"))))
    "CWID"
  = Some (HW09.Student.__init__ "CWID" "Name" "Major").
Proof.
  apply (hw09_every_line_is_a_student sample_fs "HW11/students.txt" students_txt
           (HW09.Repository.fresh "HW11") "CWID" "Name" "Major"
           [] [["1"; "Amy"; "CS"]; ["2"; "Bob"; "EE"]]).
  - reflexivity.
  - reflexivity.
  - constructor.
  - by repeat constructor.
Defined.

(** ** The lines of the grades loop *)

Lemma for_gen_output {S A} (g : gen A) (body : A → M S unit) (I : S → Prop)
    (out_of : A → list event) :
  (∀ a s, a ∈ yielded g → I s →
     outcome_of (body a s) = Return tt
     ∧ I (state_of (body a s))
     ∧ output_of (body a s) = out_of a) →
  ∀ s, I s → output_of (for_gen g body s) = concat (map out_of (yielded g)).
Proof.
  induction g as [|a rest IH|e]; intros Hbody s Hs; simpl; [done| |done].
  destruct (Hbody a s) as (Hreturn & Hkeep & Hout); [by left|done|].
  unfold bind. destruct (body a s) as [[[[]|e] s1] out1]; [|done].
  unfold outcome_of, state_of, output_of in *. simpl in *. subst out1.
  specialize (IH (λ a' s' Hin, Hbody a' s' ltac:(by right)) s1 Hkeep).
  destruct (for_gen rest body s1) as [[r s2] out2]. simpl in *. by rewrite IH.
Qed.

Lemma keys_get {V} (d : Dict.t V) (k : string) :
  k ∈ Dict.keys d ↔ is_Some (Dict.get d k).
Proof.
  split; [|intros [v Hv]; by eapply get_keys].
  induction d as [|[k0 v0] d IH]; simpl; [by intros ?%elem_of_nil|].
  case_decide; [by eexists|]. intros [->|Hin]%elem_of_cons; [done|by apply IH].
Qed.

Lemma mem_keys {V W} (d : Dict.t V) (d' : Dict.t W) (k : string) :
  Dict.keys d = Dict.keys d' → Dict.mem k d = Dict.mem k d'.
Proof.
  intros Hkeys. unfold Dict.mem. apply bool_decide_ext.
  by rewrite <- !keys_get, Hkeys.
Qed.

(** X17. The grades loop prints, record by record in the order of the
    file, a line for the student and then a line for the instructor that
    the repository does not know; who is known is settled before the loop,
    no grade record adding or removing a student or an instructor. *)
Theorem grades_diagnostics (fs : FileSystem) (path : string) (self : Repository.t) :
  output_of (Repository._get_grades fs path self)
  = concat (map (grade_diagnostics self) (yielded (file_reader fs path 4 tab true))).
Proof.
  unfold Repository._get_grades.
  apply (for_gen_output _ _
           (λ s, Dict.keys (Repository._students s) = Dict.keys (Repository._students self)
                 ∧ Dict.keys (Repository._instructors s)
                   = Dict.keys (Repository._instructors self))); [|done].
  intros record s Hin [Hstudents Hinstructors].
  pose proof (yielded_file_reader fs path 4 tab true) as Hwf.
  rewrite Forall_forall in Hwf. specialize (Hwf record Hin).
  split; [by apply grades_record_returns|].
  destruct (grades_record_frame record s) as (_ & _ & Hs & Hi).
  split; [by rewrite Hs, Hi|].
  destruct record as [|c [|crs [|g [|i [|]]]]]; try done.
  rewrite grades_record_run. unfold output_of, grade_diagnostics. simpl.
  by rewrite (mem_keys _ _ c Hstudents), (mem_keys _ _ i Hinstructors).
Qed.

(** ** The range of the grade point average *)

Section range.
Import PyFloat.
Local Open Scope Q_scope.

(** The binary64 number nearest to a number of hundredths between 0 and 4
    lies between 0 and 4. *)
Lemma fl_hundredths (k : Z) :
  (0 ≤ k ≤ 400)%Z → 0 <= fl (inject_Z k / 100) ∧ fl (inject_Z k / 100) <= 4.
Proof.
  intros Hk.
  destruct (decide (k = 0%Z)) as [->|Hzero]; [by vm_compute|].
  destruct (decide (k = 400%Z)) as [->|Hfull]; [by vm_compute|].
  assert (Hkq : 1 <= inject_Z k ∧ inject_Z k <= 399).
  { change 1 with (inject_Z 1). change 399 with (inject_Z 399).
    rewrite <- !Zle_Qle. lia. }
  change (inject_Z k / 100) with (inject_Z k * (1 # 100)).
  set (x := inject_Z k * (1 # 100)).
  assert (Hx : (1 # 100) <= x ∧ x <= (399 # 100)).
  { unfold x. set (kq := inject_Z k) in *. clearbody kq. split; lra. }
  pose proof (fl_mean_error x ltac:(lra) ltac:(lra)) as Herror.
  apply Qabs_Qle_condition in Herror.
  assert (H51 : (1 # 2 ^ 51) == 1 # 2251799813685248) by reflexivity.
  rewrite H51 in Herror.
  set (y := fl x) in *. clearbody y x. split; lra.
Qed.

Lemma rne_hundredths (t : Q) :
  - (1 # 2 ^ 51) <= t → t <= 4 + (1 # 2 ^ 51) → (0 ≤ rne (t * 100) ≤ 400)%Z.
Proof.
  intros Hlo Hhi. pose proof (rne_error (t * 100)) as Hrne.
  apply Qabs_Qle_condition in Hrne.
  assert (H51 : (1 # 2 ^ 51) == 1 # 2251799813685248) by reflexivity.
  rewrite H51 in Hlo, Hhi.
  assert (inject_Z (-1) < inject_Z (rne (t * 100))
          ∧ inject_Z (rne (t * 100)) < inject_Z 401) as [Hlow Hhigh].
  { change (inject_Z (-1)) with (-1). change (inject_Z 401) with 401.
    set (k := inject_Z _) in *. clearbody k. split; lra. }
  rewrite <- Zlt_Qlt in Hlow, Hhigh. lia.
Qed.

(** X18. Whenever [gpa] returns a number it lies between 0.0 and 4.0.
    (The number of courses is taken below 2^32.) *)
Theorem gpa_range {S : Type} (self : Student.t) (s : S) (g : Q) (out : list event) :
  (Z.of_nat (length (Dict.values (Student._courses self))) < 2 ^ 32)%Z →
  Student.gpa self s = (Return (Some g), s, out) →
  0 <= g ∧ g <= 4.
Proof.
  intros Hlen. rewrite gpa_run. cbv zeta.
  set (gs := Dict.values (Student._courses self)) in *.
  destruct (first_unknown gs) as [grade|] eqn:Hknown; [done|].
  destruct (decide (length gs = 0%nat)) as [Hzero|Hcourses]; [done|].
  intros [= <- _].
  pose proof (length_points_of gs Hknown) as Hpoints.
  set (n := Z.of_nat (length gs)) in *.
  assert (Hn : (0 < n)%Z) by (unfold n; lia).
  destruct (Qsum_quarter _ (points_quarter gs)) as (A & HA & Hsum).
  rewrite Hpoints in HA. fold n in HA.
  assert (Hnq : 1 <= inject_Z n).
  { change 1 with (inject_Z 1). rewrite <- Zle_Qle. lia. }
  assert (Hmean : mean (points_of gs) * inject_Z n == inject_Z A * (1 # 4)).
  { unfold mean. rewrite Hpoints. fold n. rewrite Hsum. field. lra. }
  assert (HAq : 0 <= inject_Z A ∧ inject_Z A <= 16 * inject_Z n).
  { change 0 with (inject_Z 0). change 16 with (inject_Z 16).
    rewrite <- inject_Z_mult, <- !Zle_Qle. lia. }
  assert (Hrange : 0 <= mean (points_of gs) ∧ mean (points_of gs) <= 4).
  { set (m := mean _) in *. set (nq := inject_Z n) in *. set (Aq := inject_Z A) in *.
    clearbody m nq Aq. split; nra. }
  assert (Htotal : div (sum (points_of gs)) (of_int n) = fl (mean (points_of gs))).
  { unfold div. apply fl_proper. unfold mean. rewrite Hpoints. fold n.
    rewrite sum_exact, of_int_exact; [reflexivity|lia| |rewrite Hpoints; fold n; lia].
    apply points_quarter. }
  rewrite Htotal. unfold round.
  change (inject_Z (10 ^ Z.of_nat 2)) with 100.
  apply fl_hundredths, rne_hundredths.
  - pose proof (fl_mean_error _ (proj1 Hrange) (proj2 Hrange)) as Herror.
    apply Qabs_Qle_condition in Herror.
    set (t := fl _) in *. set (m := mean _) in *. clearbody t m. lra.
  - pose proof (fl_mean_error _ (proj1 Hrange) (proj2 Hrange)) as Herror.
    apply Qabs_Qle_condition in Herror.
    set (t := fl _) in *. set (m := mean _) in *. clearbody t m. lra.
Qed.
End range.

Lemma gpa_range_witness :
  @Student.gpa unit amy tt = (Return (Some (13 # 4)%Q), tt, [])
  ∧ (0 <= 13 # 4)%Q ∧ (13 # 4 <= 4)%Q.
Proof.
  split; [by vm_compute|].
  apply (@gpa_range unit amy tt (13 # 4)%Q []); [by vm_compute|by vm_compute].
Defined.

(** ** The exceptions of the constructor *)




